(** * apischema validators: validator construction, registry and the
      validation engine

    Shallow embedding of [apischema/validation/validators.py] (and of the
    part of [apischema/objects/getters.py] it calls).  Python objects that
    are mutated in place (validators, the registry) live in an explicit
    store; exceptions are values of an inductive type and every function
    that can raise returns them explicitly. *)

From Stdlib Require Import ZArith List Bool Lia.
From stdpp Require Import base option list strings gmap sets fin_maps fin_sets.

Open Scope string_scope.
Open Scope list_scope.

Set Warnings "-register-all,-clear-no-such-hyp".

(** ** Values, instances, types *)

(** A class is identified by its qualified name. *)
Abbreviation Ty := string (only parsing).

Inductive Value :=
| VNone
| VInt (z : Z)
| VStr (s : string).

(** An instance: its class and its attribute dictionary. *)
Record Instance := {
  type_of : Ty;
  attrs : gmap string Value
}.

(** ** Errors *)

(** Modelled from the spec: [apischema.validation.errors.ValidationError]
    is not part of the sources.  The spec describes it as zero or more flat
    messages plus a mapping from field alias to a nested error; the mapping
    is an insertion-ordered dict, kept here as an association list. *)
Inductive ValidationError :=
| mkValidationError (messages : list string)
                    (children : list (string * ValidationError)).

Definition messages (e : ValidationError) : list string :=
  match e with mkValidationError m _ => m end.

Definition children (e : ValidationError) : list (string * ValidationError) :=
  match e with mkValidationError _ c => c end.

(** [d.get(k)] on an association list. *)
Fixpoint assoc {A} (k : string) (d : list (string * A)) : option A :=
  match d with
  | [] => None
  | (k', x) :: d' => if String.eqb k k' then Some x else assoc k d'
  end.

Definition has_key {A} (k : string) (d : list (string * A)) : bool :=
  existsb (fun kv => String.eqb k (fst kv)) d.

(** Modelled from the spec: [merge_errors] is not part of the sources.
    "Merging two ValidationErrors concatenates flat messages and deep-merges
    the nested mappings (recursively merging same-keyed children,
    concatenating otherwise)." *)
Fixpoint merge (e1 e2 : ValidationError) {struct e1} : ValidationError :=
  match e1, e2 with
  | mkValidationError m1 c1, mkValidationError m2 c2 =>
      mkValidationError (m1 ++ m2)
        ((fix merge_children (c : list (string * ValidationError)) :=
            match c with
            | [] => []
            | (k, x) :: c' =>
                (k, match assoc k c2 with
                    | Some y => merge x y
                    | None => x
                    end) :: merge_children c'
            end) c1
         ++ filter (fun kv => negb (has_key (fst kv) c1)) c2)
  end.

(** Modelled from the spec: the engine calls [merge_errors(error, err)]
    with [error : Optional[ValidationError]], [None] meaning that nothing
    has been collected yet. *)
Definition merge_errors (error : option ValidationError)
    (err : ValidationError) : ValidationError :=
  match error with
  | None => err
  | Some e => merge e err
  end.

(** "Has messages or children". *)
Definition non_identity (e : ValidationError) : bool :=
  negb (match messages e with [] => true | _ => false end
        && match children e with [] => true | _ => false end).

(** ** Exceptions *)

(** The exceptions a call can raise.  [Discard] is the class defined in
    validators.py; [NonTrivialDependency] comes from
    [apischema.validation.mock]; [EException cls msg] stands for an instance
    of any other subclass [cls] of [Exception] with [str(err) = msg]. *)
Inductive Exc :=
| EValidationError (err : ValidationError)
| Discard (fields : gset string) (error : ValidationError)
| NonTrivialDependency
| AssertionError
| EException (cls : string) (msg : string).

Inductive Outcome :=
| Return
| Raise (e : Exc).

(** ** Check functions *)

Inductive ParameterKind :=
| POSITIONAL_ONLY
| POSITIONAL_OR_KEYWORD
| VAR_POSITIONAL
| KEYWORD_ONLY
| VAR_KEYWORD.

Global Instance ParameterKind_eq_dec : EqDecision ParameterKind.
Proof. solve_decision. Defined.

(** [inspect.Parameter], as far as the constructor reads it. *)
Record SigParameter := {
  name : string;
  kind : ParameterKind
}.

(** What driving the body of a check function to completion does: a plain
    function returns or raises; a generator yields error messages. *)
Inductive CallResult :=
| Returns
| Yields (errors : list string)
| Raises (e : Exc).

(** A user check function, as far as the validators module looks at it:
    [fn_name] is [func.__name__], [signature] is [None] when
    [inspect.signature(func)] raises [ValueError], otherwise the ordered
    parameters. *)
Record Func := {
  fn_name : string;
  signature : option (list SigParameter);
  isgeneratorfunction : bool;
  call : Instance -> gmap string Value -> CallResult
}.

(** Calling a function that is not wrapped: whatever it returns is dropped. *)
Definition call_plain (f : Func) (obj : Instance)
    (kwargs : gmap string Value) : Outcome :=
  match call f obj kwargs with
  | Returns => Return
  | Yields _ => Return
  | Raises e => Raise e
  end.

(** Modelled from the spec: [yield_to_raise] is not part of the sources.
    "Every yielded value is converted into one collected error"; a
    generator yielding two messages produces a single ValidationError with
    two flat entries; nothing yielded, nothing raised. *)
Definition yield_to_raise (f : Func) (obj : Instance)
    (kwargs : gmap string Value) : Outcome :=
  match call f obj kwargs with
  | Returns => Return
  | Yields [] => Return
  | Yields errors => Raise (EValidationError (mkValidationError errors []))
  | Raises e => Raise e
  end.

(** ** Fields *)

Record ObjectField := {
  field_name : string;
  alias : string
}.

(** Modelled from the spec: [FieldOrName] and [get_field_name] come from
    [apischema.objects.fields], which is not part of the sources.  A target
    is "a field identifier or declared name"; [get_field_name] gives the
    declared field name of either. *)
Inductive FieldOrName :=
| ByName (n : string)
| ByField (f : ObjectField).

Definition get_field_name (f : FieldOrName) : string :=
  match f with
  | ByName n => n
  | ByField f => field_name f
  end.

(** ** The world outside the module *)

(** What validators.py asks of its collaborators.  [visit_fields tp] is
    [GetFields(False).visit(tp)] ([None]: [Unsupported] is raised);
    [mro tp] is [tp.__mro__] when the attribute exists; [model_origin tp]
    is [get_model_origin(tp)] when [has_model_origin(tp)]. *)
Record World := {
  visit_fields : gmap Ty (list ObjectField);
  mro : gmap Ty (list Ty);
  model_origin : gmap Ty Ty;
  find_all_dependencies : Ty -> Func -> gset string
}.

(** getters.py, [object_fields]: [OrderedDict((f.name, f) for f in ...)];
    a later pair with the same key replaces the value of an earlier one.
    [None] is the [TypeError] raised on [Unsupported]. *)
Definition object_fields (w : World) (tp : Ty)
    : option (gmap string ObjectField) :=
  match visit_fields w !! tp with
  | Some fields =>
      Some (fold_left (fun d f => <[field_name f := f]> d) fields ∅)
  | None => None
  end.

(** ** Validators *)

(** A [Validator] object.  [owner] is an attribute that exists only once
    [_register] has run; [alias_cell] and [discarded_cell] are the closure
    variables [alias] and [discarded] of the two wrappers built by
    [__init__], [None] until the first failure. *)
Record Validator := {
  func : Func;
  field : option FieldOrName;
  discard : option (list FieldOrName);
  dependencies : gset string;
  params : gset string;
  owner : option Ty;
  _registered : bool;
  alias_cell : option string;
  discarded_cell : option (gset string)
}.

Definition TypeError (msg : string) : Exc := EException "TypeError" msg.

(** [Validator.__init__], lines 74-85: the declared parameter names, or the
    construction error. *)
Definition init_params (f : Func) : Exc + gset string :=
  match signature f with
  | None => inr ∅
  | Some parameters =>
      match parameters with
      | [] => inl (TypeError "Validator must have at least one parameter")
      | _ :: others =>
          if existsb (fun p => bool_decide (kind p = VAR_KEYWORD)) parameters
          then inl (TypeError
                      "Validator cannot have variadic keyword parameter")
          else if existsb (fun p => bool_decide (kind p = VAR_POSITIONAL))
                    parameters
          then inl (TypeError
                      "Validator cannot have variadic positional parameter")
          else inr (list_to_set (name <$> others))
      end
  end.

(** [Validator.__init__]: the new object, or the exception it raises. *)
Definition Validator_init (f : Func) (fld : option FieldOrName)
    (disc : option (list FieldOrName)) : Exc + Validator :=
  let discard0 :=
    match fld, disc with
    | Some x, None => Some [x]
    | _, _ => disc
    end in
  match init_params f with
  | inl e => inl e
  | inr ps =>
      inr {| func := f; field := fld; discard := discard0;
             dependencies := ∅; params := ps; owner := None;
             _registered := false;
             alias_cell := None; discarded_cell := None |}
  end.

(** Python truth value of [self.discard]. *)
Definition truthy (d : option (list FieldOrName)) : bool :=
  match d with
  | Some (_ :: _) => true
  | _ => false
  end.

Definition set_cells (v : Validator) (a : option string)
    (d : option (gset string)) : Validator :=
  {| func := func v; field := field v; discard := discard v;
     dependencies := dependencies v; params := params v; owner := owner v;
     _registered := _registered v;
     alias_cell := a; discarded_cell := d |}.

(** Innermost layer (lines 73, 86-87): the check itself, generator-converted
    when it is a generator function. *)
Definition validate_check (v : Validator) (obj : Instance)
    (kwargs : gmap string Value) : Outcome :=
  if isgeneratorfunction (func v)
  then yield_to_raise (func v) obj kwargs
  else call_plain (func v) obj kwargs.

(** [repr] of a string key, as [str(KeyError(k))] prints it. *)
Definition repr (k : string) : string := "'" +:+ k +:+ "'".

(** Lines 98-100: [object_fields(self.owner)[get_field_name(self.field)].alias],
    with the exception each step can raise. *)
Definition lookup_alias (w : World) (v : Validator) (fld : FieldOrName)
    : Exc + string :=
  match owner v with
  | None =>
      inl (EException "AttributeError"
             "'Validator' object has no attribute 'owner'")
  | Some tp =>
      match object_fields w tp with
      | None => inl (TypeError (tp +:+ " doesn't have fields"))
      | Some fields =>
          match fields !! get_field_name fld with
          | None => inl (EException "KeyError" (repr (get_field_name fld)))
          | Some f => inr (alias f)
          end
      end
  end.

(** Second layer (lines 88-101), present when [self.field is not None]:
    returns the new content of the [alias] cell and the outcome. *)
Definition validate_field (w : World) (v : Validator) (obj : Instance)
    (kwargs : gmap string Value) : option string * Outcome :=
  match field v with
  | None => (alias_cell v, validate_check v obj kwargs)
  | Some fld =>
      match validate_check v obj kwargs with
      | Raise (EValidationError err) =>
          match alias_cell v with
          | Some a =>
              (Some a,
               Raise (EValidationError (mkValidationError [] [(a, err)])))
          | None =>
              match lookup_alias w v fld with
              | inr a =>
                  (Some a,
                   Raise (EValidationError (mkValidationError [] [(a, err)])))
              | inl e => (None, Raise e)
              end
          end
      | out => (alias_cell v, out)
      end
  end.

(** Line 113: [set(map(get_field_name, self.discard))]. *)
Definition discard_names (v : Validator) : gset string :=
  list_to_set (get_field_name <$> default [] (discard v)).

(** Outermost layer (lines 103-116), present when [self.discard] is truthy:
    [self.validate], returning the validator with its cells updated. *)
Definition Validator_validate (w : World) (v : Validator) (obj : Instance)
    (kwargs : gmap string Value) : Validator * Outcome :=
  let '(a, out) := validate_field w v obj kwargs in
  if truthy (discard v) then
    match out with
    | Raise (EValidationError err) =>
        let discarded :=
          match discarded_cell v with
          | Some d => d
          | None => discard_names v
          end in
        (set_cells v a (Some discarded), Raise (Discard discarded err))
    | _ => (set_cells v a (discarded_cell v), out)
    end
  else (set_cells v a (discarded_cell v), out).

(** ** The registry *)

(** Validators are objects shared between the registry and their users:
    [objects] maps an object identity to its current state, [_validators]
    is the module-level [defaultdict(list)] of identities. *)
Record Store := {
  objects : gmap nat Validator;
  _validators : gmap Ty (list nat)
}.

(** [_validators[tp]]; the empty list a [defaultdict] creates on a miss is
    not recorded, it is read as empty again the next time. *)
Definition registered_for (st : Store) (tp : Ty) : list nat :=
  default [] (_validators st !! tp).

Definition set_owner (v : Validator) (o : Ty) : Validator :=
  {| func := func v; field := field v; discard := discard v;
     dependencies := dependencies v; params := params v; owner := Some o;
     _registered := _registered v;
     alias_cell := alias_cell v; discarded_cell := discarded_cell v |}.

Definition set_registration (v : Validator) (deps : gset string) : Validator :=
  {| func := func v; field := field v; discard := discard v;
     dependencies := deps; params := params v; owner := owner v;
     _registered := true;
     alias_cell := alias_cell v; discarded_cell := discarded_cell v |}.

(** [Validator._register], lines 125-131, on the object [self].  The outer
    [option] is [None] only for an identity that names no object. *)
Definition _register (w : World) (st : Store) (self : nat) (o : Ty)
    : option (Store * Outcome) :=
  match objects st !! self with
  | None => None
  | Some v =>
      let v1 := set_owner v o in
      let st1 := {| objects := <[self := v1]> (objects st);
                    _validators := _validators st |} in
      if _registered v1 then
        Some (st1,
              Raise (EException "RuntimeError" "Validator already registered"))
      else
        let deps := find_all_dependencies w o (func v1) ∪ params v1 in
        Some ({| objects := <[self := set_registration v1 deps]> (objects st1);
                 _validators :=
                   <[o := registered_for st1 o ++ [self]]> (_validators st1) |},
              Return)
  end.

(** [get_validators], lines 39-48.  The recursion follows [get_model_origin]
    and is not structural: [fuel] bounds its depth, [None] is fuel running
    out. *)
Fixpoint get_validators (fuel : nat) (w : World) (st : Store) (tp : Ty)
    : option (list nat) :=
  match fuel with
  | O => None
  | S fuel' =>
      let validators :=
        match mro w !! tp with
        | Some classes =>
            fold_left (fun acc sub_cls => acc ++ registered_for st sub_cls)
                      classes []
        | None => [] ++ registered_for st tp
        end in
      match model_origin w !! tp with
      | Some origin =>
          match get_validators fuel' w st origin with
          | Some more => Some (validators ++ more)
          | None => None
          end
      | None => Some validators
      end
  end.

(** ** The validation engine *)

(** Line 152, [{k: kwargs[k] for k in validator.params}]; [None] is the
    [KeyError] of a missing key. *)
Definition dict_of_params (ps : gset string) (kwargs : gmap string Value)
    : option (gmap string Value) :=
  foldr (fun k acc =>
           match kwargs !! k, acc with
           | Some x, Some d => Some (<[k := x]> d)
           | _, _ => None
           end)
        (Some ∅) (elements ps).

(** Lines 149-155: the keyword arguments the validator is called with, or
    the exception raised before the call.  [params != kwargs.keys()]
    compares the two as sets.  The [KeyError] branch is the lookup
    [kwargs[k]] failing; the assertion before it rules it out. *)
Definition dispatch (ps : gset string) (kwargs : gmap string Value)
    : Exc + gmap string Value :=
  if bool_decide (kwargs ≠ ∅) && bool_decide (ps ≠ dom kwargs) then
    if bool_decide (set_Forall (fun k => k ∈ dom kwargs) ps) then
      match dict_of_params ps kwargs with
      | Some args => inr args
      | None => inl (EException "KeyError" "")
      end
    else inl AssertionError
  else inr kwargs.

(** What [validate] ends with. *)
Inductive Result :=
| Returned (obj : Instance)
| RaisedValidationError (error : ValidationError)
| RaisedNonTrivialDependency (validator : Validator)
| RaisedAssertionError.

(** A run of the engine: the calls made to [validator.validate], in order,
    each with its keyword arguments, and the way the run ends. *)
Record Run := {
  calls : list (Validator * gmap string Value);
  result : Result
}.

Definition after_calls (cs : list (Validator * gmap string Value)) (r : Run)
    : Run :=
  {| calls := cs ++ calls r; result := result r |}.

(** The body of the [try], lines 149-155. *)
Definition try_call (w : World) (validator : Validator) (obj : Instance)
    (kwargs : gmap string Value)
    : list (Validator * gmap string Value) * Outcome :=
  match dispatch (params validator) kwargs with
  | inl e => ([], Raise e)
  | inr args => ([(validator, args)],
                 snd (Validator_validate w validator obj args))
  end.

(** Line 162, the condition of one generator expression:
    [not discarded & v.dependencies]. *)
Definition not_discarded (discarded : gset string) (v : Validator) : bool :=
  bool_decide (discarded ∩ dependencies v = ∅).

(** The working iterator is the list iterator of line 145 wrapped in [gens]
    generator expressions (line 161), one per Discard so far.  Every one of
    them reads the local variable [discarded] of [validate] when it is
    asked for its next element, not when it was created: a validator comes
    out of the stack if each layer lets it through under the current
    value. *)
Fixpoint passes (gens : nat) (discarded : gset string) (v : Validator)
    : bool :=
  match gens with
  | O => true
  | S gens' => passes gens' discarded v && not_discarded discarded v
  end.

(** [next(__validators)] on that stack: the first validator of the
    underlying iterator that passes, and what is left after it; [None] is
    [StopIteration]. *)
Fixpoint next (gens : nat) (discarded : gset string) (it : list Validator)
    : option (Validator * list Validator) :=
  match it with
  | [] => None
  | v :: it' =>
      if passes gens discarded v then Some (v, it')
      else next gens discarded it'
  end.

(** Lines 174-176. *)
Definition finish (obj : Instance) (error : option ValidationError) : Run :=
  {| calls := [];
     result := match error with
               | Some e => RaisedValidationError e
               | None => Returned obj
               end |}.

(** Lines 146-173.  The state is the accumulated [error], the stack depth
    [gens], the variable [discarded] (unbound, and never read, while
    [gens = 0]) and what is left of the underlying list iterator.  A
    [break] followed by the next round of [while True] re-enters the [for]
    on the new iterator: that is the recursive call with [S gens].  The
    last branch is [next] skipping a filtered validator (see
    [validate_loop_next]). *)
Fixpoint validate_loop (w : World) (obj : Instance)
    (kwargs : gmap string Value) (error : option ValidationError)
    (gens : nat) (discarded : gset string) (it : list Validator) : Run :=
  match it with
  | [] => finish obj error
  | validator :: it' =>
      if passes gens discarded validator then
        let '(cs, out) := try_call w validator obj kwargs in
        after_calls cs
          match out with
          | Return => validate_loop w obj kwargs error gens discarded it'
          | Raise (EValidationError err) =>
              validate_loop w obj kwargs (Some (merge_errors error err))
                            gens discarded it'
          | Raise (Discard fields err) =>
              validate_loop w obj kwargs (Some (merge_errors error err))
                            (S gens) fields it'
          | Raise NonTrivialDependency =>
              {| calls := []; result := RaisedNonTrivialDependency validator |}
          | Raise AssertionError =>
              {| calls := []; result := RaisedAssertionError |}
          | Raise (EException _ msg) =>
              validate_loop w obj kwargs
                (Some (merge_errors error (mkValidationError [msg] [])))
                gens discarded it'
          end
      else validate_loop w obj kwargs error gens discarded it'
  end.

(** [validate(__obj, __validators, **kwargs)] with an explicit sequence. *)
Definition validate (w : World) (obj : Instance) (validators : list Validator)
    (kwargs : gmap string Value) : Run :=
  validate_loop w obj kwargs None 0 ∅ validators.

(** The objects behind a list of identities. *)
Definition deref (st : Store) (ids : list nat) : list Validator :=
  omap (fun i => objects st !! i) ids.

(** [validate(__obj, **kwargs)]: the validators are those of
    [type(__obj)]. *)
Definition validate_registered (fuel : nat) (w : World) (st : Store)
    (obj : Instance) (kwargs : gmap string Value) : option Run :=
  match get_validators fuel w st (type_of obj) with
  | Some ids => Some (validate w obj (deref st ids) kwargs)
  | None => None
  end.

(** ** Field and alias getters (getters.py) *)

(** What [object_fields2], [get_field] and [get_alias] are given: a type
    (or generic alias), or an instance. *)
Inductive TypeOrInstance :=
| IsType (tp : Ty)
| IsInstance (obj : Instance).

Definition AttributeError (n : string) : Exc := EException "AttributeError" n.

(** [object_fields] with its [TypeError] spelled out (lines 42-45). *)
Definition object_fields_or_raise (w : World) (tp : Ty)
    : Exc + gmap string ObjectField :=
  match object_fields w tp with
  | Some d => inr d
  | None => inl (TypeError (tp +:+ " doesn't have fields"))
  end.

(** [object_fields2], lines 48-52: an instance stands for its class. *)
Definition object_fields2 (w : World) (obj : TypeOrInstance)
    : Exc + gmap string ObjectField :=
  object_fields_or_raise w
    match obj with
    | IsType tp => tp
    | IsInstance o => type_of o
    end.

(** [FieldGetter.__getattribute__], lines 62-66, on the stored mapping. *)
Definition FieldGetter_getattribute (fields : gmap string ObjectField)
    (n : string) : Exc + ObjectField :=
  match fields !! n with
  | Some f => inr f
  | None => inl (AttributeError n)
  end.

(** [AliasGetter.__getattribute__], lines 89-93. *)
Definition AliasGetter_getattribute (fields : gmap string ObjectField)
    (n : string) : Exc + string :=
  match fields !! n with
  | Some f => inr (alias f)
  | None => inl (AttributeError n)
  end.

(** [get_field(obj).n]: the getter is built first ([__init__] calls
    [object_fields2]), then the attribute is read. *)
Definition get_field (w : World) (obj : TypeOrInstance) (n : string)
    : Exc + ObjectField :=
  match object_fields2 w obj with
  | inl e => inl e
  | inr fields => FieldGetter_getattribute fields n
  end.

(** [get_alias(obj).n]. *)
Definition get_alias (w : World) (obj : TypeOrInstance) (n : string)
    : Exc + string :=
  match object_fields2 w obj with
  | inl e => inl e
  | inr fields => AliasGetter_getattribute fields n
  end.

(** ** The [validator] decorator (validators.py, lines 194-222) *)

(** What the decorator asks about a function through helpers that are not
    part of the sources: [is_method] and [method_class] of
    [apischema.utils], and [hinted_type arg p], the value of
    [get_origin_or_type(get_type_hints(arg)[p])], [None] when evaluating it
    raises. *)
Record Reflection := {
  is_method : Func -> bool;
  method_class : Func -> option Ty;
  hinted_type : Func -> string -> option Ty
}.

(** What the decorator returns: the new [Validator] object, or the
    function it was given. *)
Inductive Decorated :=
| IsValidator (id : nat)
| IsFunction (f : Func).

(** A new object in the store. *)
Definition alloc (st : Store) (v : Validator) : nat * Store :=
  let id := fresh (dom (objects st)) in
  (id, {| objects := <[id := v]> (objects st);
          _validators := _validators st |}).

Definition ValueError (msg : string) : Exc := EException "ValueError" msg.

(** Lines 206-210: the owner read off the type hint of the first
    parameter; any exception in the [try] becomes the [ValueError]. *)
Definition first_param_owner (r : Reflection) (arg : Func) : Exc + Ty :=
  match signature arg with
  | Some (p :: _) =>
      match hinted_type r arg (name p) with
      | Some o => inr o
      | None => inl (ValueError "Validator first parameter must be typed")
      end
  | _ => inl (ValueError "Validator first parameter must be typed")
  end.

(** Lines 211-212: [validator_._register(owner); return arg]. *)
Definition register_new (w : World) (st : Store) (id : nat) (arg : Func)
    (o : Ty) : Store * (Exc + Decorated) :=
  match _register w st id o with
  | Some (st', Return) => (st', inr (IsFunction arg))
  | Some (st', Raise e) => (st', inl e)
  | None => (st, inl (AttributeError "_register"))
  end.

(** Lines 195-212: [validator(arg, field=, discard=, owner=)] for a
    callable [arg]. *)
Definition validator_func (r : Reflection) (w : World) (st : Store)
    (arg : Func) (fld : option FieldOrName)
    (disc : option (list FieldOrName)) (owner_ : option Ty)
    : Store * (Exc + Decorated) :=
  match Validator_init arg fld disc with
  | inl e => (st, inl e)
  | inr v =>
      let '(id, st1) := alloc st v in
      if is_method r arg then
        match method_class r arg, owner_ with
        | None, Some _ =>
            (st1, inl (TypeError
                         "Validator owner cannot be set for class validator"))
        | None, None => (st1, inr (IsValidator id))
        | Some cls, None => register_new w st1 id arg cls
        | Some _, Some o => register_new w st1 id arg o
        end
      else
        match owner_ with
        | Some o => register_new w st1 id arg o
        | None =>
            match first_param_owner r arg with
            | inl e => (st1, inl e)
            | inr o => register_new w st1 id arg o
            end
        end
  end.






(** [Validator.__set_name__], lines 133-135, with the attributes of the
    classes in [ns]: when [_register] raises, the attribute is not
    replaced. *)
Definition __set_name__ (w : World) (st : Store) (ns : gmap (Ty * string) Decorated)
    (self : nat) (o : Ty) (n : string)
    : option (Store * gmap (Ty * string) Decorated * Outcome) :=
  match _register w st self o with
  | None => None
  | Some (st', Raise e) => Some (st', ns, Raise e)
  | Some (st', Return) =>
      match objects st' !! self with
      | Some v => Some (st', <[(o, n) := IsFunction (func v)]> ns, Return)
      | None => None
      end
  end.

(** ** Vocabulary of the statements *)

(** The error an [except] clause of the engine merges for an outcome of the
    [try] body, if any (lines 156-159 and 170-171). *)
Definition surfaced (out : Outcome) : option ValidationError :=
  match out with
  | Raise (EValidationError err) => Some err
  | Raise (Discard _ err) => Some err
  | Raise (EException _ msg) => Some (mkValidationError [msg] [])
  | _ => None
  end.

(** The accumulated error after one more recorded call. *)
Definition collect (w : World) (obj : Instance)
    (error : option ValidationError) (c : Validator * gmap string Value)
    : option ValidationError :=
  match surfaced (snd (Validator_validate w c.1 obj c.2)) with
  | Some e => Some (merge_errors error e)
  | None => error
  end.

(** The names of the check functions called in a run, in order. *)
Definition called (r : Run) : list string :=
  map (fun c => fn_name (func (fst c))) (calls r).

(** [origin_depth w tp n]: following [get_model_origin] from [tp] ends
    after [n] steps. *)
Inductive origin_depth (w : World) : Ty -> nat -> Prop :=
| origin_depth_O tp :
    model_origin w !! tp = None -> origin_depth w tp 0
| origin_depth_S tp origin n :
    model_origin w !! tp = Some origin ->
    origin_depth w origin n ->
    origin_depth w tp (S n).

(** An outcome of the [try] body after which the loop simply goes on: a
    normal return, a ValidationError, or an exception of another class. *)
Definition goes_on (out : Outcome) : Prop :=
  match out with
  | Return => True
  | Raise (EValidationError _) => True
  | Raise (EException _ _) => True
  | _ => False
  end.



(** The registry and the flags agree: no list repeats an object, no object
    is in two lists, and the objects listed are those whose [_registered]
    is set. *)
Definition registry_wf (st : Store) : Prop :=
  (forall tp, NoDup (registered_for st tp))
  /\ (forall tp tp' i,
        i ∈ registered_for st tp -> i ∈ registered_for st tp' -> tp = tp')
  /\ (forall i,
        (exists tp, i ∈ registered_for st tp)
        <-> exists v, objects st !! i = Some v /\ _registered v = true).

(** [owner_resolved r arg owner_ o]: [o] is the owner the decorator
    settles on, the explicit one first, then the class of a method, then
    the type hint of the first parameter. *)
Definition owner_resolved (r : Reflection) (arg : Func) (owner_ : option Ty)
    (o : Ty) : Prop :=
  (forall o', owner_ = Some o' -> o = o')
  /\ (owner_ = None -> is_method r arg = true -> method_class r arg = Some o)
  /\ (owner_ = None -> is_method r arg = false ->
      first_param_owner r arg = inr o).

(** ** A small world to run the definitions on *)

Module Demo.

Definition fa := {| field_name := "a"; alias := "A" |}.
Definition fb := {| field_name := "b"; alias := "B" |}.
Definition bar_a := {| field_name := "a"; alias := "alpha" |}.

Definition self_and (ps : list string) : option (list SigParameter) :=
  Some ({| name := "self"; kind := POSITIONAL_OR_KEYWORD |}
        :: map (fun p => {| name := p; kind := KEYWORD_ONLY |}) ps).

(** [def n(self, *ps): raise e] and [def n(self, *ps): pass]. *)
Definition raising (n : string) (ps : list string) (e : Exc) : Func :=
  {| fn_name := n; signature := self_and ps; isgeneratorfunction := false;
     call := fun _ _ => Raises e |}.

Definition passing (n : string) (ps : list string) : Func :=
  {| fn_name := n; signature := self_and ps; isgeneratorfunction := false;
     call := fun _ _ => Returns |}.

(** [def n(self): yield m1; yield m2]. *)
Definition yielding (n : string) (msgs : list string) : Func :=
  {| fn_name := n; signature := self_and []; isgeneratorfunction := true;
     call := fun _ _ => Yields msgs |}.

Definition fails (n msg : string) : Func :=
  raising n [] (EValidationError (mkValidationError [msg] [])).

Definition world : World :=
  {| visit_fields := {[ "Foo" := [fa; fb]; "Bar" := [bar_a] ]};
     mro := {[ "Foo" := ["Foo"; "Base"; "object"];
               "Base" := ["Base"; "object"];
               "Bar" := ["Bar"; "object"];
               "FooModel" := ["FooModel"; "object"] ]};
     model_origin := {[ "FooModel" := "Foo" ]};
     find_all_dependencies := fun _ f =>
       if String.eqb (fn_name f) "check_a" then {[ "a" ]}
       else if String.eqb (fn_name f) "check_b" then {[ "b" ]}
       else if String.eqb (fn_name f) "uses_a" then {[ "a" ]}
       else ∅ |}.

Definition new (f : Func) (fld : option FieldOrName)
    (disc : option (list FieldOrName)) : option Validator :=
  match Validator_init f fld disc with
  | inr v => Some v
  | inl _ => None
  end.

(** The validator objects, by identity, before registration. *)
Definition created : list (nat * option Validator) :=
  [ (1, new (fails "check_a" "bad a") (Some (ByName "a")) None);
    (2, new (fails "check_b" "bad b") (Some (ByName "b")) None);
    (3, new (fails "uses_a" "a again") None None);
    (4, new (passing "check_x" ["x"]) None None);
    (5, new (raising "empty" [] (EValidationError (mkValidationError [] [])))
            None None);
    (6, new (raising "boom" [] (EException "ValueError" "boom")) None None);
    (7, new (yielding "several" ["m1"; "m2"]) (Some (ByField fa)) None);
    (8, new (fails "base_check" "bad base") None None);
    (9, new (fails "model_check" "bad model") None None) ]%nat.

Definition store0 : Store :=
  {| objects := list_to_map
                  (omap (fun io => option_map (pair (fst io)) (snd io))
                        created);
     _validators := ∅ |}.

Definition register_all (st : Store) (l : list (nat * Ty)) : Store :=
  fold_left (fun s io => match _register world s (fst io) (snd io) with
                         | Some (s', _) => s'
                         | None => s
                         end) l st.

Definition store : Store :=
  register_all store0
    [ (1, "Foo"); (2, "Foo"); (3, "Foo"); (7, "Foo");
      (4, "Bar"); (5, "Bar"); (6, "Bar");
      (8, "Base"); (9, "FooModel") ]%nat.

Definition foo : Instance := {| type_of := "Foo"; attrs := ∅ |}.

Definition blank : Validator :=
  {| func := passing "blank" []; field := None; discard := None;
     dependencies := ∅; params := ∅; owner := None; _registered := false;
     alias_cell := None; discarded_cell := None |}.

(** The registered validator objects. *)
Definition get (st : Store) (i : nat) : Validator :=
  default blank (objects st !! i).

Definition v1 : Validator := Eval vm_compute in get store 1.
Definition v2 : Validator := Eval vm_compute in get store 2.
Definition v3 : Validator := Eval vm_compute in get store 3.
Definition v4 : Validator := Eval vm_compute in get store 4.
Definition v5 : Validator := Eval vm_compute in get store 5.
Definition v6 : Validator := Eval vm_compute in get store 6.
Definition v7 : Validator := Eval vm_compute in get store 7.

(** A function outside any class, its first parameter annotated with
    [Foo], and a method of a class that is still being defined. *)
Definition reflection : Reflection :=
  {| is_method := fun f => String.eqb (fn_name f) "method";
     method_class := fun _ => None;
     hinted_type := fun _ _ => Some "Foo" |}.

Definition empty_store : Store := {| objects := ∅; _validators := ∅ |}.

(** [check_a] as constructed, never registered. *)
Definition unregistered : Validator :=
  Eval vm_compute in get store0 1.

End Demo.

(** ** Construction *)

Section Construction.

Variables (f : Func) (fld : option FieldOrName)
          (disc : option (list FieldOrName)).

Lemma init_params_no_signature : signature f = None -> init_params f = inr ∅.
Proof. intros H. unfold init_params. by rewrite H. Qed.

Lemma Validator_init_params (v : Validator) :
  Validator_init f fld disc = inr v -> init_params f = inr (params v).
Proof.
  unfold Validator_init. destruct (init_params f) as [e|ps]; [done|].
  intros [= <-]. done.
Qed.

Lemma Validator_init_fresh (v : Validator) :
  Validator_init f fld disc = inr v ->
  func v = f /\ field v = fld /\ owner v = None /\ _registered v = false
  /\ dependencies v = ∅ /\ alias_cell v = None /\ discarded_cell v = None.
Proof.
  unfold Validator_init. destruct (init_params f) as [e|ps]; [done|].
  intros [= <-]. done.
Qed.

End Construction.

Lemma existsb_kind (k : ParameterKind) (ps : list SigParameter) :
  existsb (fun p => bool_decide (kind p = k)) ps = true
  <-> Exists (fun p => kind p = k) ps.
Proof.
  rewrite existsb_exists, Exists_exists. split.
  - intros (p & Hin & Hk). exists p. split; [by apply list_elem_of_In|].
    by apply bool_decide_eq_true in Hk.
  - intros (p & Hin & Hk). exists p. split; [by apply list_elem_of_In|].
    by apply bool_decide_eq_true.
Qed.

(** ** Dispatch of the keyword arguments *)

Lemma dict_of_list_filter (kwargs : gmap string Value) (l : list string) :
  (forall k, k ∈ l -> k ∈ dom kwargs) ->
  foldr (fun k acc =>
           match kwargs !! k, acc with
           | Some x, Some d => Some (<[k := x]> d)
           | _, _ => None
           end) (Some ∅) l
  = Some (filter (fun kv => kv.1 ∈ l) kwargs).
Proof.
  induction l as [|k l IH]; intros Hdom; simpl.
  - f_equal. symmetry. apply map_empty_filter.
    intros i x _ Hin. simpl in Hin. by apply elem_of_nil in Hin.
  - assert (Hk : k ∈ dom kwargs) by (apply Hdom; left).
    apply elem_of_dom in Hk as [x Hx]. rewrite Hx.
    rewrite IH by (intros; apply Hdom; by right).
    f_equal. apply map_eq. intros i.
    destruct (decide (i = k)) as [->|Hne].
    + rewrite lookup_insert_eq. symmetry.
      apply map_lookup_filter_Some. split; [done|]. simpl. left.
    + rewrite lookup_insert_ne by done.
      destruct (filter (fun kv => kv.1 ∈ l) kwargs !! i) as [y|] eqn:Hy.
      * apply map_lookup_filter_Some in Hy as [Hy Hin]. symmetry.
        apply map_lookup_filter_Some. split; [done|]. simpl in *. by right.
      * symmetry. apply map_lookup_filter_None.
        apply map_lookup_filter_None in Hy as [Hy|Hy]; [by left|right].
        intros y Hiy Hin. simpl in *.
        apply elem_of_cons in Hin as [?|Hin]; [done|]. by eapply Hy.
Qed.

Lemma dict_of_params_filter (ps : gset string) (kwargs : gmap string Value) :
  ps ⊆ dom kwargs ->
  dict_of_params ps kwargs = Some (filter (fun kv => kv.1 ∈ ps) kwargs).
Proof.
  intros Hsub. unfold dict_of_params.
  rewrite dict_of_list_filter.
  - f_equal. apply map_filter_ext. intros i x _. simpl.
    by rewrite elem_of_elements.
  - intros k Hk. apply Hsub. by apply elem_of_elements.
Qed.

Lemma dispatch_filtered (ps : gset string) (kwargs : gmap string Value) :
  kwargs ≠ ∅ -> ps ≠ dom kwargs -> ps ⊆ dom kwargs ->
  dispatch ps kwargs = inr (filter (fun kv => kv.1 ∈ ps) kwargs).
Proof.
  intros Hne Hneq Hsub. unfold dispatch.
  rewrite (bool_decide_eq_true_2 (kwargs ≠ ∅)) by done.
  rewrite (bool_decide_eq_true_2 (ps ≠ dom kwargs)) by done. simpl.
  rewrite bool_decide_eq_true_2 by (intros k Hk; by apply Hsub).
  by rewrite dict_of_params_filter.
Qed.

Lemma dispatch_assertion (ps : gset string) (kwargs : gmap string Value) :
  kwargs ≠ ∅ -> ~ ps ⊆ dom kwargs -> dispatch ps kwargs = inl AssertionError.
Proof.
  intros Hne Hsub. unfold dispatch.
  rewrite (bool_decide_eq_true_2 (kwargs ≠ ∅)) by done.
  rewrite bool_decide_eq_true_2 by (intros ->; by apply Hsub). simpl.
  rewrite bool_decide_eq_false_2; [done|].
  intros Hall. apply Hsub. intros k Hk. by apply Hall.
Qed.

Lemma dispatch_all (ps : gset string) (kwargs : gmap string Value) :
  ps = dom kwargs \/ kwargs = ∅ -> dispatch ps kwargs = inr kwargs.
Proof.
  intros [->| ->]; unfold dispatch.
  - rewrite (bool_decide_eq_false_2 (dom kwargs ≠ dom kwargs)) by tauto.
    by rewrite andb_false_r.
  - by rewrite bool_decide_eq_false_2 by tauto.
Qed.

Lemma dispatch_no_params (kwargs : gmap string Value) :
  dispatch ∅ kwargs = inr ∅.
Proof.
  destruct (decide (kwargs = ∅)) as [->|Hne].
  - apply dispatch_all. by right.
  - rewrite dispatch_filtered; [|done| |set_solver].
    + f_equal. apply map_empty_filter. intros i x _ Hin. set_solver.
    + intros Hdom. symmetry in Hdom. by apply dom_empty_iff_L in Hdom.
Qed.

Lemma dispatch_cases (ps : gset string) (kwargs : gmap string Value) :
  dispatch ps kwargs = inl AssertionError
  \/ exists args, dispatch ps kwargs = inr args.
Proof.
  destruct (decide (kwargs = ∅)) as [->|Hne].
  { right. eexists. apply dispatch_all. by right. }
  destruct (decide (ps ⊆ dom kwargs)) as [Hsub|Hsub].
  - right. destruct (decide (ps = dom kwargs)) as [Heq|Hneq].
    + eexists. apply dispatch_all. by left.
    + eexists. by apply dispatch_filtered.
  - left. by apply dispatch_assertion.
Qed.

(** ** Steps of the engine *)

Section Steps.

Variables (w : World) (obj : Instance) (kwargs : gmap string Value).

Lemma passes_disjoint gens discarded v :
  discarded ∩ dependencies v = ∅ -> passes gens discarded v = true.
Proof.
  intros Hd. induction gens as [|gens IH]; simpl; [done|].
  rewrite IH. unfold not_discarded. by rewrite bool_decide_eq_true_2.
Qed.

Lemma passes_intersect gens discarded v :
  discarded ∩ dependencies v ≠ ∅ -> passes (S gens) discarded v = false.
Proof.
  intros Hd. simpl. unfold not_discarded.
  rewrite (bool_decide_eq_false_2 _ Hd). apply andb_false_r.
Qed.

(** A validator the generators filter out is never tried. *)
Lemma validate_loop_skip error gens discarded v it :
  passes gens discarded v = false ->
  validate_loop w obj kwargs error gens discarded (v :: it)
  = validate_loop w obj kwargs error gens discarded it.
Proof. intros H. simpl. by rewrite H. Qed.

Lemma validate_loop_return error gens discarded v it cs :
  passes gens discarded v = true ->
  try_call w v obj kwargs = (cs, Return) ->
  validate_loop w obj kwargs error gens discarded (v :: it)
  = after_calls cs (validate_loop w obj kwargs error gens discarded it).
Proof. intros Hp Hc. simpl. by rewrite Hp, Hc. Qed.

Lemma validate_loop_error error gens discarded v it cs err :
  passes gens discarded v = true ->
  try_call w v obj kwargs = (cs, Raise (EValidationError err)) ->
  validate_loop w obj kwargs error gens discarded (v :: it)
  = after_calls cs
      (validate_loop w obj kwargs (Some (merge_errors error err))
                     gens discarded it).
Proof. intros Hp Hc. simpl. by rewrite Hp, Hc. Qed.

(** On a Discard the carried error is merged, one more generator wraps
    the iterator and [discarded] is rebound. *)
Lemma validate_loop_discard error gens discarded v it cs fields err :
  passes gens discarded v = true ->
  try_call w v obj kwargs = (cs, Raise (Discard fields err)) ->
  validate_loop w obj kwargs error gens discarded (v :: it)
  = after_calls cs
      (validate_loop w obj kwargs (Some (merge_errors error err))
                     (S gens) fields it).
Proof. intros Hp Hc. simpl. by rewrite Hp, Hc. Qed.

Lemma validate_loop_exception error gens discarded v it cs cls msg :
  passes gens discarded v = true ->
  try_call w v obj kwargs = (cs, Raise (EException cls msg)) ->
  validate_loop w obj kwargs error gens discarded (v :: it)
  = after_calls cs
      (validate_loop w obj kwargs
         (Some (merge_errors error (mkValidationError [msg] [])))
         gens discarded it).
Proof. intros Hp Hc. simpl. by rewrite Hp, Hc. Qed.

Lemma validate_loop_assertion error gens discarded v it cs :
  passes gens discarded v = true ->
  try_call w v obj kwargs = (cs, Raise AssertionError) ->
  validate_loop w obj kwargs error gens discarded (v :: it)
  = {| calls := cs ++ []; result := RaisedAssertionError |}.
Proof. intros Hp Hc. simpl. by rewrite Hp, Hc. Qed.

(** The loop is [for validator in __validators] over [next]. *)
Lemma validate_loop_next error gens discarded it :
  validate_loop w obj kwargs error gens discarded it
  = match next gens discarded it with
    | None => finish obj error
    | Some (validator, it') =>
        let '(cs, out) := try_call w validator obj kwargs in
        after_calls cs
          match out with
          | Return => validate_loop w obj kwargs error gens discarded it'
          | Raise (EValidationError err) =>
              validate_loop w obj kwargs (Some (merge_errors error err))
                            gens discarded it'
          | Raise (Discard fields err) =>
              validate_loop w obj kwargs (Some (merge_errors error err))
                            (S gens) fields it'
          | Raise NonTrivialDependency =>
              {| calls := []; result := RaisedNonTrivialDependency validator |}
          | Raise AssertionError =>
              {| calls := []; result := RaisedAssertionError |}
          | Raise (EException _ msg) =>
              validate_loop w obj kwargs
                (Some (merge_errors error (mkValidationError [msg] [])))
                gens discarded it'
          end
    end.
Proof.
  induction it as [|v it IH]; simpl; [done|].
  by destruct (passes gens discarded v).
Qed.

(** Which validators are called does not depend on the errors collected
    so far. *)
Lemma calls_any_error e1 e2 gens discarded it :
  calls (validate_loop w obj kwargs e1 gens discarded it)
  = calls (validate_loop w obj kwargs e2 gens discarded it).
Proof.
  revert e1 e2 gens discarded.
  induction it as [|v it IH]; intros e1 e2 gens discarded; simpl.
  - by destruct e1, e2.
  - destruct (passes gens discarded v); [|apply IH].
    destruct (try_call w v obj kwargs) as [cs [|[err|fields err| | |cls msg]]];
      simpl; f_equal; apply IH.
Qed.

Lemma try_call_outcomes v :
  try_call w v obj kwargs = ([], Raise AssertionError)
  \/ exists args,
       dispatch (params v) kwargs = inr args
       /\ try_call w v obj kwargs
          = ([(v, args)], snd (Validator_validate w v obj args)).
Proof.
  unfold try_call.
  destruct (dispatch_cases (params v) kwargs) as [->|[args ->]]; eauto.
Qed.

End Steps.

(** ** Theorems on construction and dispatch *)

(** C9: constructing a Validator from a check function with zero
    parameters, or with a variadic-keyword or a variadic-positional
    parameter, raises a TypeError; no validator object comes out of it, so
    the failure precedes any validation. *)
Theorem Validator_init_rejects_signature (f : Func)
    (fld : option FieldOrName) (disc : option (list FieldOrName))
    (parameters : list SigParameter) :
  signature f = Some parameters ->
  parameters = []
  \/ Exists (fun p => kind p = VAR_KEYWORD) parameters
  \/ Exists (fun p => kind p = VAR_POSITIONAL) parameters ->
  (exists msg, Validator_init f fld disc = inl (TypeError msg))
  /\ forall v, Validator_init f fld disc <> inr v.
Proof.
  intros Hsig Hbad.
  assert (Hp : exists msg, init_params f = inl (TypeError msg)).
  { unfold init_params. rewrite Hsig.
    destruct parameters as [|p others]; [eauto|].
    destruct Hbad as [?|[Hk|Hv]]; [done| |].
    - apply existsb_kind in Hk. rewrite Hk. eauto.
    - apply existsb_kind in Hv.
      destruct (existsb (fun q => bool_decide (kind q = VAR_KEYWORD))
                  (p :: others)); [eauto|].
      rewrite Hv. eauto. }
  destruct Hp as [msg Hp]. unfold Validator_init. rewrite Hp.
  split; [eauto|done].
Qed.

Lemma Validator_init_rejects_signature_witness :
  exists msg,
    Validator_init
      {| fn_name := "check"; isgeneratorfunction := false;
         signature := Some [ {| name := "self"; kind := POSITIONAL_OR_KEYWORD |};
                             {| name := "kwargs"; kind := VAR_KEYWORD |} ];
         call := fun _ _ => Returns |}
      None None = inl (TypeError msg).
Proof.
  eapply Validator_init_rejects_signature.
  - reflexivity.
  - right. left. apply Exists_cons_tl, Exists_cons_hd. reflexivity.
Defined.

(** C10: when the signature of the check function cannot be inspected,
    construction succeeds with an empty set of declared parameters (none of
    the three signature checks runs), and a validator with these parameters
    is called with the instance alone, whatever keyword arguments the
    engine was given. *)
Theorem Validator_init_without_signature (f : Func)
    (fld : option FieldOrName) (disc : option (list FieldOrName)) :
  signature f = None ->
  exists v,
    Validator_init f fld disc = inr v
    /\ params v = ∅
    /\ forall v', params v' = params v ->
       forall w obj kwargs,
         try_call w v' obj kwargs
         = ([(v', ∅)], snd (Validator_validate w v' obj ∅)).
Proof.
  intros Hsig. unfold Validator_init.
  rewrite (init_params_no_signature _ Hsig).
  eexists. split; [reflexivity|]. split; [reflexivity|].
  simpl. intros v' Hv' w obj kwargs. unfold try_call.
  by rewrite Hv', dispatch_no_params.
Qed.

Lemma Validator_init_without_signature_witness :
  exists v,
    Validator_init
      {| fn_name := "builtin"; isgeneratorfunction := false;
         signature := None; call := fun _ _ => Returns |}
      None None = inr v
    /\ params v = ∅.
Proof.
  destruct (Validator_init_without_signature
              {| fn_name := "builtin"; isgeneratorfunction := false;
                 signature := None; call := fun _ _ => Returns |}
              None None eq_refl) as (v & Hv & Hp & _).
  exists v. split; assumption.
Defined.

(** C3: with keyword arguments supplied and [params] a strict subset of
    their keys, the validator is called with exactly the entries whose key
    is in [params]; with [params] equal to the keys, or no keyword argument
    supplied, it is called with all of them.  The filtered call is guarded
    by the assertion that every parameter is a key: when it fails no call
    is made and the AssertionError leaves the engine. *)
Theorem try_call_kwargs (w : World) (v : Validator) (obj : Instance)
    (kwargs : gmap string Value) :
  (kwargs ≠ ∅ -> params v ⊂ dom kwargs ->
   let args := filter (fun kv => kv.1 ∈ params v) kwargs in
   try_call w v obj kwargs
   = ([(v, args)], snd (Validator_validate w v obj args)))
  /\ (params v = dom kwargs \/ kwargs = ∅ ->
      try_call w v obj kwargs
      = ([(v, kwargs)], snd (Validator_validate w v obj kwargs)))
  /\ (kwargs ≠ ∅ -> ~ params v ⊆ dom kwargs ->
      try_call w v obj kwargs = ([], Raise AssertionError)
      /\ forall error it,
           validate_loop w obj kwargs error 0 ∅ (v :: it)
           = {| calls := []; result := RaisedAssertionError |}).
Proof.
  split; [|split].
  - intros Hne [Hsub Hnsub] args. unfold try_call.
    rewrite dispatch_filtered; [done|done| |done].
    intros Heq. apply Hnsub. by rewrite Heq.
  - intros H. unfold try_call. by rewrite dispatch_all.
  - intros Hne Hsub.
    assert (Hc : try_call w v obj kwargs = ([], Raise AssertionError)).
    { unfold try_call. by rewrite dispatch_assertion. }
    split; [done|]. intros error it.
    by rewrite (validate_loop_assertion w obj kwargs error 0 ∅ v it []
                  eq_refl Hc).
Qed.

Lemma try_call_kwargs_witness :
  try_call Demo.world Demo.v4 Demo.foo {[ "x" := VInt 1; "y" := VInt 2 ]}
  = ([(Demo.v4, {[ "x" := VInt 1 ]})], Return).
Proof.
  destruct (try_call_kwargs Demo.world Demo.v4 Demo.foo
              {[ "x" := VInt 1; "y" := VInt 2 ]}) as [H _].
  assert (Hp : params Demo.v4 = {[ "x" ]}) by (vm_compute; reflexivity).
  assert (Hd : dom ({[ "x" := VInt 1; "y" := VInt 2 ]} : gmap string Value)
               = ({[ "x"; "y" ]} : gset string)) by (vm_compute; reflexivity).
  rewrite H.
  - vm_compute. reflexivity.
  - apply insert_non_empty.
  - rewrite Hp, Hd. split; [apply union_subseteq_l|].
    intros Hsub. specialize (Hsub "y").
    assert (Hy : "y" ∈ ({[ "x" ]} : gset string)).
    { apply Hsub, elem_of_union_r. by apply elem_of_singleton. }
    apply elem_of_singleton in Hy. discriminate Hy.
Defined.

(** ** Theorems on the engine *)

Lemma non_identity_merge_l (a b : ValidationError) :
  non_identity a = true -> non_identity (merge a b) = true.
Proof.
  destruct a as [m1 c1], b as [m2 c2]. unfold non_identity. simpl.
  destruct m1 as [|x m1]; [|done].
  destruct c1 as [|[k y] c1]; [done|]. simpl. by destruct m2.
Qed.

Lemma non_identity_merge_errors (error : option ValidationError)
    (err : ValidationError) :
  (forall e, error = Some e -> non_identity e = true) ->
  non_identity err = true ->
  non_identity (merge_errors error err) = true.
Proof.
  intros He Herr. destruct error as [e|]; simpl; [|done].
  apply non_identity_merge_l. by apply He.
Qed.

Lemma collect_Some (w : World) (obj : Instance)
    (cs : list (Validator * gmap string Value)) (e : ValidationError) :
  exists e', fold_left (collect w obj) cs (Some e) = Some e'.
Proof.
  revert e. induction cs as [|c cs IH]; intros e; simpl; [eauto|].
  unfold collect at 2. destruct (surfaced _); apply IH.
Qed.

Section Engine.

Variables (w : World) (obj : Instance) (kwargs : gmap string Value).

(** What a run ends with, from the calls it made: the accumulated error
    is the merge, in order, of what the calls surfaced. *)
Lemma validate_loop_result error gens discarded it :
  let r := validate_loop w obj kwargs error gens discarded it in
  match result r with
  | Returned o => o = obj /\ fold_left (collect w obj) (calls r) error = None
  | RaisedValidationError e =>
      fold_left (collect w obj) (calls r) error = Some e
  | _ => True
  end.
Proof.
  revert error gens discarded.
  induction it as [|v it IH]; intros error gens discarded.
  - simpl. by destruct error.
  - cbn zeta. simpl validate_loop.
    destruct (passes gens discarded v); [|apply IH].
    destruct (try_call_outcomes w obj kwargs v) as [->|(args & _ & ->)];
      [done|].
    destruct (Validator_validate w v obj args) as [v' out] eqn:Hout.
    assert (Hs : forall e, collect w obj e (v, args)
                           = match surfaced out with
                             | Some x => Some (merge_errors e x)
                             | None => e
                             end).
    { intros e. unfold collect. simpl. by rewrite Hout. }
    simpl snd.
    destruct out as [|[err|fields err| | |cls msg]]; simpl;
      try done; rewrite Hs; apply IH.
Qed.

Lemma validate_loop_all_return error gens discarded it :
  Forall (fun v => snd (try_call w v obj kwargs) = Return) it ->
  result (validate_loop w obj kwargs error gens discarded it)
  = result (finish obj error).
Proof.
  induction 1 as [|v it Hv _ IH]; [done|]. simpl validate_loop.
  destruct (passes gens discarded v); [|apply IH].
  destruct (try_call w v obj kwargs) as [cs out]. simpl in Hv. subst out.
  apply IH.
Qed.

Lemma collect_non_identity cs error e :
  (forall x, error = Some x -> non_identity x = true) ->
  Forall (fun c => forall x,
            surfaced (snd (Validator_validate w c.1 obj c.2)) = Some x ->
            non_identity x = true) cs ->
  fold_left (collect w obj) cs error = Some e ->
  non_identity e = true.
Proof.
  intros Herr Hcs. revert error Herr.
  induction Hcs as [|c cs Hc _ IH]; intros error Herr; simpl.
  - intros ->. by apply Herr.
  - apply IH. unfold collect.
    destruct (surfaced _) as [x|]; [|done].
    intros y [= <-]. apply non_identity_merge_errors; auto.
Qed.

(** Validators whose dependencies meet the discarded fields, and that
    are pulled while [discarded] still has that value, are dropped. *)
Lemma validate_loop_prune error gens discarded dropped it :
  Forall (fun v => discarded ∩ dependencies v ≠ ∅) dropped ->
  validate_loop w obj kwargs error (S gens) discarded (dropped ++ it)
  = validate_loop w obj kwargs error (S gens) discarded it.
Proof.
  induction 1 as [|v dropped Hv _ IH]; [done|].
  rewrite <- app_comm_cons, validate_loop_skip; [done|].
  by apply passes_intersect.
Qed.

(** A second Discard rebinds [discarded] for every generator of the stack:
    what is pulled next is decided by the new fields alone, whatever the
    fields of the first Discard were. *)
Lemma validate_loop_rebinds error gens discarded v u x it cs1 cs2
    fields1 fields2 err1 err2 :
  passes gens discarded v = true ->
  try_call w v obj kwargs = (cs1, Raise (Discard fields1 err1)) ->
  fields1 ∩ dependencies u = ∅ ->
  try_call w u obj kwargs = (cs2, Raise (Discard fields2 err2)) ->
  fields2 ∩ dependencies x = ∅ ->
  passes (S (S gens)) fields2 x = true
  /\ validate_loop w obj kwargs error gens discarded (v :: u :: x :: it)
     = after_calls cs1
         (after_calls cs2
            (validate_loop w obj kwargs
               (Some (merge_errors (Some (merge_errors error err1)) err2))
               (S (S gens)) fields2 (x :: it))).
Proof.
  intros Hv Hcv Hu Hcu Hx. split; [by apply passes_disjoint|].
  rewrite (validate_loop_discard w obj kwargs _ _ _ _ _ _ _ _ Hv Hcv).
  by rewrite (validate_loop_discard w obj kwargs _ _ _ _ _ _ _ _
                (passes_disjoint _ _ _ Hu) Hcu).
Qed.

End Engine.

(** C8: an exception of any other class raised by the call of a validator
    becomes the flat error [ValidationError([str(err)])], is merged into the
    accumulated error, and the loop goes on with the next validator in the
    same iterator state; the calls made to the validators that follow are
    those that would have been made from the state before it. *)
Theorem validate_loop_collects_exception (w : World) (obj : Instance)
    (kwargs : gmap string Value) (error : option ValidationError)
    (gens : nat) (discarded : gset string) (v : Validator)
    (it : list Validator) (cs : list (Validator * gmap string Value))
    (cls msg : string) :
  passes gens discarded v = true ->
  try_call w v obj kwargs = (cs, Raise (EException cls msg)) ->
  validate_loop w obj kwargs error gens discarded (v :: it)
  = after_calls cs
      (validate_loop w obj kwargs
         (Some (merge_errors error (mkValidationError [msg] [])))
         gens discarded it)
  /\ calls (validate_loop w obj kwargs error gens discarded (v :: it))
     = cs ++ calls (validate_loop w obj kwargs error gens discarded it).
Proof.
  intros Hp Hc.
  rewrite (validate_loop_exception _ _ _ _ _ _ _ _ _ _ _ Hp Hc).
  split; [done|]. simpl. f_equal. apply calls_any_error.
Qed.

Lemma validate_loop_collects_exception_witness :
  calls (validate_loop Demo.world Demo.foo ∅ None 0 ∅ [Demo.v6; Demo.v3])
  = [(Demo.v6, ∅)]
    ++ calls (validate_loop Demo.world Demo.foo ∅ None 0 ∅ [Demo.v3]).
Proof.
  apply (validate_loop_collects_exception Demo.world Demo.foo ∅ None 0 ∅
           Demo.v6 [Demo.v3] [(Demo.v6, ∅)] "ValueError" "boom").
  - reflexivity.
  - vm_compute. reflexivity.
Defined.

(** C1: the engine on three failing validators of [Foo], in registration
    order: [check_a] discards {a}, [check_b] discards {b}, [uses_a] depends
    on a.  The Discard of [check_a] is merged and [uses_a] is then filtered
    out as long as [discarded] is {a}: called right after [check_a] it is
    dropped.  But the generator expressions read the variable [discarded]
    when they are advanced, and the Discard of [check_b] rebinds it to {b}:
    from then on nothing filters on {a} any more, [uses_a] is called and its
    failure is part of the raised error. *)
Theorem validate_later_discard_rebinds_filter :
  let keyed k msg := (k, mkValidationError [msg] []) in
  snd (Validator_validate Demo.world Demo.v1 Demo.foo ∅)
  = Raise (Discard {["a"]} (mkValidationError [] [keyed "A" "bad a"]))
  /\ snd (Validator_validate Demo.world Demo.v2 Demo.foo ∅)
     = Raise (Discard {["b"]} (mkValidationError [] [keyed "B" "bad b"]))
  /\ not_discarded {["a"]} Demo.v3 = false
  /\ (let r := validate Demo.world Demo.foo [Demo.v1; Demo.v3; Demo.v2] ∅ in
      called r = ["check_a"; "check_b"]
      /\ result r = RaisedValidationError
                      (mkValidationError []
                         [keyed "A" "bad a"; keyed "B" "bad b"]))
  /\ (let r := validate Demo.world Demo.foo [Demo.v1; Demo.v2; Demo.v3] ∅ in
      called r = ["check_a"; "check_b"; "uses_a"]
      /\ result r = RaisedValidationError
                      (mkValidationError ["a again"]
                         [keyed "A" "bad a"; keyed "B" "bad b"])).
Proof. repeat split; vm_compute; reflexivity. Qed.

(** C5, as stated, fails: a check that raises [ValidationError()] makes the
    engine raise an error with no messages and no children. *)
Lemma validate_raises_empty_error :
  ~ (forall w obj validators kwargs e,
       result (validate w obj validators kwargs) = RaisedValidationError e ->
       non_identity e = true).
Proof.
  intros H.
  assert (Hn : non_identity (mkValidationError [] []) = true).
  { apply (H Demo.world Demo.foo [Demo.v5] ∅). vm_compute. reflexivity. }
  discriminate Hn.
Qed.

(** C5, amended: [validate] returns only the instance it was given, and
    does so when every validator returns; if it returns, no call surfaced a
    failure.  When it raises a ValidationError, that error is the merge, in
    call order, of the errors the calls surfaced, and it has messages or
    children as soon as each of those has. *)
Theorem validate_returns_or_raises (w : World) (obj : Instance)
    (validators : list Validator) (kwargs : gmap string Value) :
  let r := validate w obj validators kwargs in
  (forall o, result r = Returned o ->
             o = obj /\ fold_left (collect w obj) (calls r) None = None)
  /\ (Forall (fun v => snd (try_call w v obj kwargs) = Return) validators ->
      result r = Returned obj)
  /\ (forall e, result r = RaisedValidationError e ->
        fold_left (collect w obj) (calls r) None = Some e
        /\ (Forall (fun c => forall x,
                      surfaced (snd (Validator_validate w c.1 obj c.2))
                      = Some x -> non_identity x = true) (calls r) ->
            non_identity e = true)).
Proof.
  intros r. subst r. unfold validate.
  pose proof (validate_loop_result w obj kwargs None 0 ∅ validators) as Hr.
  cbn zeta in Hr. split; [|split].
  - intros o Ho. by rewrite Ho in Hr.
  - intros Hall. by rewrite validate_loop_all_return.
  - intros e He. rewrite He in Hr. split; [done|].
    intros Hne.
    eapply collect_non_identity; [|exact Hne|exact Hr]. intros x Hx.
    discriminate Hx.
Qed.

Lemma validate_returns_or_raises_witness :
  result (validate Demo.world Demo.foo [Demo.v4] ∅) = Returned Demo.foo.
Proof.
  apply (validate_returns_or_raises Demo.world Demo.foo [Demo.v4] ∅).
  repeat constructor.
Defined.

(** ** Theorems on registration *)

Section Registration.

Variables (w : World) (st : Store) (self : nat) (o : Ty) (v : Validator).
Hypothesis Hself : objects st !! self = Some v.

(** The first registration: dependencies computed, the object appended
    to the list of its owner, the flag set. *)
Lemma _register_first :
  _registered v = false ->
  exists st',
    _register w st self o = Some (st', Return)
    /\ objects st' !! self
       = Some (set_registration (set_owner v o)
                 (find_all_dependencies w o (func v) ∪ params v))
    /\ registered_for st' o = registered_for st o ++ [self]
    /\ forall tp, tp ≠ o -> registered_for st' tp = registered_for st tp.
Proof.
  intros Hreg. unfold _register. rewrite Hself. simpl. rewrite Hreg.
  eexists. split; [reflexivity|]. simpl. split; [|split].
  - by rewrite lookup_insert_eq.
  - unfold registered_for. simpl. by rewrite lookup_insert_eq.
  - intros tp Hne. unfold registered_for. simpl.
    by rewrite lookup_insert_ne.
Qed.

(** A later registration raises, after the owner has been assigned. *)
Lemma _register_again :
  _registered v = true ->
  _register w st self o
  = Some ({| objects := <[self := set_owner v o]> (objects st);
             _validators := _validators st |},
          Raise (EException "RuntimeError" "Validator already registered")).
Proof. intros Hreg. unfold _register. rewrite Hself. simpl. by rewrite Hreg. Qed.

End Registration.

(** C7: [check_a] is registered for [Foo]; registering it again, for [Bar],
    raises the RuntimeError and leaves its dependencies and the registry as
    they were, but its owner is [Bar] afterwards, and a failure of the
    validator is from then on keyed by the alias the field has in [Bar]. *)
Theorem register_twice_overwrites_owner :
  owner (Demo.get Demo.store 1) = Some "Foo"
  /\ exists st',
       _register Demo.world Demo.store 1 "Bar"
       = Some (st', Raise (EException "RuntimeError"
                             "Validator already registered"))
       /\ owner (Demo.get st' 1) = Some "Bar"
       /\ dependencies (Demo.get st' 1) = dependencies (Demo.get Demo.store 1)
       /\ _validators st' = _validators Demo.store
       /\ result (validate Demo.world Demo.foo [Demo.get Demo.store 1] ∅)
          = RaisedValidationError
              (mkValidationError [] [("A", mkValidationError ["bad a"] [])])
       /\ result (validate Demo.world Demo.foo [Demo.get st' 1] ∅)
          = RaisedValidationError
              (mkValidationError []
                 [("alpha", mkValidationError ["bad a"] [])]).
Proof.
  split; [vm_compute; reflexivity|].
  eexists. split; [vm_compute; reflexivity|].
  repeat split; vm_compute; reflexivity.
Qed.

(** ** Theorems on the wrapping layers *)

Section Layers.

Variables (w : World) (v : Validator) (obj : Instance)
          (kwargs : gmap string Value).

Lemma lookup_alias_found fld tp fields f :
  owner v = Some tp ->
  object_fields w tp = Some fields ->
  fields !! get_field_name fld = Some f ->
  lookup_alias w v fld = inr (alias f).
Proof. intros Ho Hf Hl. unfold lookup_alias. by rewrite Ho, Hf, Hl. Qed.

Lemma lookup_alias_error fld e :
  lookup_alias w v fld = inl e -> exists cls msg, e = EException cls msg.
Proof.
  unfold lookup_alias. destruct (owner v) as [tp|]; [|intros [= <-]; eauto].
  destruct (object_fields w tp) as [fields|]; [|intros [= <-]; eauto].
  destruct (fields !! get_field_name fld); [done|intros [= <-]; eauto].
Qed.

(** No failure, no lookup: the [alias] cell is left as it is. *)
Lemma validate_field_return :
  validate_check v obj kwargs = Return ->
  validate_field w v obj kwargs = (alias_cell v, Return).
Proof.
  intros Hc. unfold validate_field. rewrite Hc. by destruct (field v).
Qed.

(** Once the cell is filled, nothing is looked up any more. *)
Lemma validate_field_cached fld a err :
  field v = Some fld ->
  alias_cell v = Some a ->
  validate_check v obj kwargs = Raise (EValidationError err) ->
  validate_field w v obj kwargs
  = (Some a, Raise (EValidationError (mkValidationError [] [(a, err)]))).
Proof. intros Hf Ha Hc. unfold validate_field. by rewrite Hf, Hc, Ha. Qed.

(** Where a ValidationError leaving the field layer comes from. *)
Lemma validate_field_inv a keyed :
  validate_field w v obj kwargs = (a, Raise (EValidationError keyed)) ->
  exists err,
    validate_check v obj kwargs = Raise (EValidationError err)
    /\ match field v with
       | None => keyed = err
       | Some _ =>
           exists al, a = Some al /\ keyed = mkValidationError [] [(al, err)]
       end.
Proof.
  unfold validate_field. destruct (field v) as [fld|].
  - destruct (validate_check v obj kwargs) as [|[err| | | |]]; try done.
    destruct (alias_cell v) as [al|].
    + intros [= <- <-]. eauto.
    + destruct (lookup_alias w v fld) as [e|al] eqn:Hl.
      * apply lookup_alias_error in Hl as (cls & msg & ->). done.
      * intros [= <- <-]. eauto.
  - intros [= _ ->]. eauto.
Qed.

(** The two cells are caches: in an unchanged world, a validator that has
    been called behaves as the validator it was before the call. *)
Lemma cells_are_caches obj' kwargs' :
  snd (Validator_validate w (fst (Validator_validate w v obj kwargs))
         obj' kwargs')
  = snd (Validator_validate w v obj' kwargs').
Proof.
  set (v' := fst (Validator_validate w v obj kwargs)).
  assert (Hsame : func v' = func v /\ field v' = field v
                  /\ discard v' = discard v /\ owner v' = owner v).
  { subst v'. unfold Validator_validate.
    destruct (validate_field w v obj kwargs) as [a out].
    destruct (truthy (discard v)); [|done]. by destruct out as [|[]]. }
  destruct Hsame as (Hfunc & Hfield & Hdisc & Hown).
  assert (Hcheck : validate_check v' obj' kwargs'
                   = validate_check v obj' kwargs').
  { unfold validate_check. by rewrite Hfunc. }
  assert (Hlook : forall fld, lookup_alias w v' fld = lookup_alias w v fld).
  { intros fld. unfold lookup_alias. by rewrite Hown. }
  assert (Hnames : discard_names v' = discard_names v).
  { unfold discard_names. by rewrite Hdisc. }
  assert (Hacell : alias_cell v' = alias_cell v
                   \/ exists fld a, field v = Some fld
                                    /\ alias_cell v = None
                                    /\ alias_cell v' = Some a
                                    /\ lookup_alias w v fld = inr a).
  { subst v'. unfold Validator_validate, validate_field.
    destruct (field v) as [fld|].
    - destruct (validate_check v obj kwargs) as [|[err| | | |]].
      2: { destruct (alias_cell v) as [a|] eqn:Ha.
           - left. by destruct (truthy (discard v)).
           - destruct (lookup_alias w v fld) as [e|a] eqn:Hl.
             + left. destruct (truthy (discard v)); [|done].
               by destruct e.
             + right. exists fld, a. by destruct (truthy (discard v)). }
      all: left; by destruct (truthy (discard v)).
    - left. destruct (truthy (discard v)); [|done].
      by destruct (validate_check v obj kwargs) as [|[]]. }
  assert (Hdcell : discarded_cell v' = discarded_cell v
                   \/ (discarded_cell v = None
                       /\ discarded_cell v' = Some (discard_names v))).
  { subst v'. unfold Validator_validate.
    destruct (validate_field w v obj kwargs) as [a out].
    destruct (truthy (discard v)); [|by left].
    destruct out as [|[err| | | |]]; try by left.
    destruct (discarded_cell v); [by left|by right]. }
  assert (Hf : snd (validate_field w v' obj' kwargs')
               = snd (validate_field w v obj' kwargs')).
  { unfold validate_field. rewrite Hfield, Hcheck.
    destruct (field v) as [fld|]; [|done].
    destruct (validate_check v obj' kwargs') as [|[err| | | |]]; try done.
    rewrite Hlook.
    destruct Hacell as [->|(fld' & a & [= <-] & -> & -> & ->)]; [|done].
    destruct (alias_cell v); [done|]. by destruct (lookup_alias w v fld). }
  unfold Validator_validate.
  destruct (validate_field w v' obj' kwargs') as [a1 out1].
  destruct (validate_field w v obj' kwargs') as [a2 out2].
  simpl in Hf. subst out2. rewrite Hdisc, Hnames.
  destruct (truthy (discard v)); [|done].
  destruct out1 as [|[err| | | |]]; try done. simpl.
  destruct Hdcell as [->|[-> ->]]; done.
Qed.

Lemma Validator_validate_surfaced a out :
  validate_field w v obj kwargs = (a, out) ->
  surfaced (snd (Validator_validate w v obj kwargs)) = surfaced out
  /\ alias_cell (fst (Validator_validate w v obj kwargs)) = a.
Proof.
  intros Hf. unfold Validator_validate. rewrite Hf.
  destruct (truthy (discard v)); [|done].
  by destruct out as [|[]].
Qed.

End Layers.

(** C2: a validator with a target field, owned by a type that has this
    field, whose (possibly generator-converted) check raises a
    ValidationError [err]: the re-keying wrapper raises
    [ValidationError(children={alias: err})], no flat message and the
    public alias of the field as only key; this is the error the validator
    hands to the engine.  The alias is looked up at this first failure and
    kept: afterwards the wrapper keys by the stored alias without
    consulting the field metadata again. *)
Theorem field_failure_rekeyed (w : World) (v : Validator) (obj : Instance)
    (kwargs : gmap string Value) (fld : FieldOrName) (err : ValidationError)
    (tp : Ty) (fields : gmap string ObjectField) (f : ObjectField) :
  field v = Some fld ->
  validate_check v obj kwargs = Raise (EValidationError err) ->
  alias_cell v = None ->
  owner v = Some tp ->
  object_fields w tp = Some fields ->
  fields !! get_field_name fld = Some f ->
  let keyed e := mkValidationError [] [(alias f, e)] in
  let v' := fst (Validator_validate w v obj kwargs) in
  validate_field w v obj kwargs
  = (Some (alias f), Raise (EValidationError (keyed err)))
  /\ surfaced (snd (Validator_validate w v obj kwargs)) = Some (keyed err)
  /\ alias_cell v' = Some (alias f)
  /\ forall w' obj' kwargs' err',
       validate_check v' obj' kwargs' = Raise (EValidationError err') ->
       validate_field w' v' obj' kwargs'
       = (Some (alias f), Raise (EValidationError (keyed err'))).
Proof.
  intros Hfld Hc Hcell Ho Hfs Hl keyed v'.
  assert (Hf : validate_field w v obj kwargs
               = (Some (alias f), Raise (EValidationError (keyed err)))).
  { unfold validate_field.
    by rewrite Hfld, Hc, Hcell, (lookup_alias_found _ _ _ _ _ _ Ho Hfs Hl). }
  destruct (Validator_validate_surfaced _ _ _ _ _ _ Hf) as [Hs Ha].
  split; [done|]. split; [done|]. split; [done|].
  intros w' obj' kwargs' err' Hc'.
  apply validate_field_cached with (fld := fld); [|done|done].
  subst v'. unfold Validator_validate. rewrite Hf.
  destruct (truthy (discard v)); done.
Qed.

Lemma field_failure_rekeyed_witness :
  validate_field Demo.world Demo.v7 Demo.foo ∅
  = (Some "A",
     Raise (EValidationError
              (mkValidationError [] [("A", mkValidationError ["m1"; "m2"] [])]))).
Proof.
  apply (field_failure_rekeyed Demo.world Demo.v7 Demo.foo ∅
           (ByField Demo.fa) (mkValidationError ["m1"; "m2"] []) "Foo"
           {[ "a" := Demo.fa; "b" := Demo.fb ]} Demo.fa);
    vm_compute; reflexivity.
Defined.

(** C6: the discard wrapper is the outermost layer.  When the discard set
    is active and a ValidationError [keyed] leaves the field layer, the
    validator raises [Discard(names, keyed)] with the names of the discard
    set, resolved at this first failure; [keyed] is the error of the
    (generator-converted) check, re-keyed by the alias when there is a
    target field.  The discard set is the explicit one, or the target
    field alone when only a target field is given. *)
Theorem discard_wraps_field_layer (w : World) (v : Validator) (obj : Instance)
    (kwargs : gmap string Value) (a : option string)
    (keyed : ValidationError) :
  truthy (discard v) = true ->
  discarded_cell v = None ->
  validate_field w v obj kwargs = (a, Raise (EValidationError keyed)) ->
  Validator_validate w v obj kwargs
  = (set_cells v a (Some (discard_names v)),
     Raise (Discard (discard_names v) keyed))
  /\ (exists err,
        validate_check v obj kwargs = Raise (EValidationError err)
        /\ (isgeneratorfunction (func v) = true ->
            yield_to_raise (func v) obj kwargs = Raise (EValidationError err))
        /\ match field v with
           | None => keyed = err
           | Some _ =>
               exists al,
                 a = Some al /\ keyed = mkValidationError [] [(al, err)]
           end)
  /\ (forall f x v0,
        Validator_init f (Some x) None = inr v0 ->
        truthy (discard v0) = true
        /\ discard_names v0 = {[ get_field_name x ]})
  /\ (forall f fld y ys v0,
        Validator_init f fld (Some (y :: ys)) = inr v0 ->
        truthy (discard v0) = true
        /\ discard_names v0 = list_to_set (get_field_name <$> y :: ys)).
Proof.
  intros Ht Hcell Hf. split; [|split; [|split]].
  - unfold Validator_validate. by rewrite Hf, Ht, Hcell.
  - destruct (validate_field_inv _ _ _ _ _ _ Hf) as (err & Hc & Hk).
    exists err. split; [done|]. split; [|done].
    intros Hg. unfold validate_check in Hc. by rewrite Hg in Hc.
  - intros f x v0. unfold Validator_init.
    destruct (init_params f); [done|]. intros [= <-].
    split; [done|]. unfold discard_names. simpl.
    apply (right_id_L ∅ (∪)).
  - intros f fld y ys v0. unfold Validator_init.
    destruct (init_params f); [done|]. intros [= <-].
    split; [by destruct fld|]. unfold discard_names. by destruct fld.
Qed.

Lemma discard_wraps_field_layer_witness :
  snd (Validator_validate Demo.world Demo.v7 Demo.foo ∅)
  = Raise (Discard {[ "a" ]}
             (mkValidationError []
                [("A", mkValidationError ["m1"; "m2"] [])])).
Proof.
  destruct (discard_wraps_field_layer Demo.world Demo.v7 Demo.foo ∅
              (Some "A")
              (mkValidationError [] [("A", mkValidationError ["m1"; "m2"] [])]))
    as [H _]; [vm_compute; reflexivity ..|].
  rewrite H. vm_compute. reflexivity.
Defined.

(** ** Theorems on the lookup of validators *)

Section Lookup.

Variables (w : World) (st : Store).

Lemma fold_left_extend (classes : list Ty) (acc : list nat) :
  fold_left (fun acc sub_cls => acc ++ registered_for st sub_cls) classes acc
  = acc ++ concat (registered_for st <$> classes).
Proof.
  revert acc. induction classes as [|c classes IH]; intros acc; simpl.
  - by rewrite app_nil_r.
  - by rewrite IH, app_assoc.
Qed.

(** With fuel beyond the depth of the model-origin chain the lookup
    returns. *)
Lemma get_validators_returns (tp : Ty) (depth fuel : nat) :
  origin_depth w tp depth -> depth < fuel ->
  exists r, get_validators fuel w st tp = Some r.
Proof.
  intros Hd. revert fuel.
  induction Hd as [tp Hnone|tp origin n Hsome _ IH]; intros fuel Hlt;
    (destruct fuel as [|fuel]; [lia|]); simpl.
  - rewrite Hnone. eauto.
  - rewrite Hsome. destruct (IH fuel) as [r ->]; [lia|]. eauto.
Qed.

(** More fuel does not change the result. *)
Lemma get_validators_fuel (tp : Ty) (fuel fuel' : nat) (r : list nat) :
  get_validators fuel w st tp = Some r -> fuel <= fuel' ->
  get_validators fuel' w st tp = Some r.
Proof.
  revert tp fuel' r. induction fuel as [|fuel IH]; intros tp fuel' r; [done|].
  destruct fuel' as [|fuel']; [lia|]. simpl.
  destruct (model_origin w !! tp) as [origin|]; [|done].
  destruct (get_validators fuel w st origin) as [more|] eqn:Hm; [|done].
  intros Hr Hle. by rewrite (IH origin fuel' more Hm) by lia.
Qed.

End Lookup.

(** C4: for a class [tp] (its [__mro__] starts with [tp] itself),
    [get_validators] returns the validators registered for [tp], then those
    of each ancestor in method-resolution order, then, when [tp] has a
    model origin, the result of [get_validators] on that origin.  Each
    registry list is in registration order: a registration appends to the
    list of the owner and touches no other list. *)
Theorem get_validators_order (w : World) (st : Store) (tp : Ty)
    (ancestors : list Ty) (depth fuel : nat) :
  mro w !! tp = Some (tp :: ancestors) ->
  origin_depth w tp depth ->
  depth < fuel ->
  (exists from_origin,
     get_validators fuel w st tp
     = Some (registered_for st tp
             ++ concat (registered_for st <$> ancestors)
             ++ from_origin)
     /\ match model_origin w !! tp with
        | None => from_origin = []
        | Some origin =>
            get_validators (Nat.pred fuel) w st origin = Some from_origin
        end)
  /\ (forall self o st',
        _register w st self o = Some (st', Return) ->
        registered_for st' o = registered_for st o ++ [self]
        /\ forall tp', tp' ≠ o -> registered_for st' tp' = registered_for st tp').
Proof.
  intros Hmro Hd Hlt. split.
  - destruct fuel as [|fuel]; [lia|]. simpl. rewrite Hmro. simpl.
    rewrite fold_left_extend.
    inversion Hd as [tp' Hnone|tp' origin n Hsome Hd']; subst.
    + rewrite Hnone. exists []. by rewrite !app_nil_r.
    + rewrite Hsome.
      destruct (get_validators_returns w st origin n fuel Hd') as [more Hm];
        [lia|].
      rewrite Hm. exists more. split; [|done]. by rewrite <- app_assoc.
  - intros self o st' Hreg. unfold _register in Hreg.
    destruct (objects st !! self) as [v|] eqn:Hv; [|done].
    destruct (_registered v) eqn:Hr.
    + simpl in Hreg. rewrite Hr in Hreg. done.
    + destruct (_register_first w st self o v Hv Hr) as (st2 & H2 & _ & Ha & Hb).
      unfold _register in H2. rewrite Hv in H2. rewrite Hreg in H2.
      injection H2 as <-. done.
Qed.

Lemma get_validators_order_witness :
  get_validators 2 Demo.world Demo.store "FooModel" = Some [9; 1; 2; 3; 7; 8]%nat.
Proof.
  destruct (get_validators_order Demo.world Demo.store "FooModel" ["object"]
              1 2) as [(from_origin & -> & Ho) _].
  - vm_compute. reflexivity.
  - eapply origin_depth_S; [vm_compute; reflexivity|].
    apply origin_depth_O. vm_compute. reflexivity.
  - lia.
  - assert (Hf : from_origin = [1; 2; 3; 7; 8]%nat).
    { vm_compute in Ho. by injection Ho as <-. }
    rewrite Hf. vm_compute. reflexivity.
Defined.

(** ** The getters *)

Lemma fold_insert_last (fields : list ObjectField)
    (d : gmap string ObjectField) (n : string) :
  fold_left (fun d f => <[field_name f := f]> d) fields d !! n
  = match last (filter (fun f => field_name f = n) fields) with
    | Some f => Some f
    | None => d !! n
    end.
Proof.
  revert d. induction fields as [|f fields IH]; intros d; simpl; [done|].
  rewrite IH, filter_cons.
  destruct (decide (field_name f = n)) as [Hn|Hn].
  - rewrite last_cons.
    destruct (last (filter _ fields)); [done|].
    by rewrite Hn, lookup_insert_eq.
  - destruct (last (filter _ fields)); [done|].
    by rewrite lookup_insert_ne.
Qed.

Lemma last_filter_name (fields : list ObjectField) (n : string)
    (f : ObjectField) :
  last (filter (fun f => field_name f = n) fields) = Some f ->
  field_name f = n /\ f ∈ fields.
Proof.
  intros Hl. apply last_Some_elem_of in Hl.
  by apply list_elem_of_filter in Hl.
Qed.

Lemma last_filter_None (fields : list ObjectField) (n : string) :
  last (filter (fun f => field_name f = n) fields) = None
  <-> n ∉ field_name <$> fields.
Proof.
  rewrite last_None. split.
  - intros Hnil Hin. apply list_elem_of_fmap in Hin as (f & -> & Hf).
    eapply (filter_nil_not_elem_of (fun g => field_name g = field_name f));
      [exact Hnil|reflexivity|exact Hf].
  - intros Hn.
    destruct (filter (fun f => field_name f = n) fields) as [|f l] eqn:Hf;
      [done|].
    assert (Hin : f ∈ filter (fun f => field_name f = n) fields)
      by (rewrite Hf; left).
    apply list_elem_of_filter in Hin as [Hname Hin].
    exfalso. apply Hn. apply list_elem_of_fmap. by exists f.
Qed.

(** X1 ([object_fields]): the mapping built for a supported type gives,
    under each name, the last of the visited fields that bears this name,
    and nothing under other names. *)
Theorem object_fields_last (w : World) (tp : Ty) (fields : list ObjectField) :
  visit_fields w !! tp = Some fields ->
  exists d,
    object_fields w tp = Some d
    /\ forall n, d !! n = last (filter (fun f => field_name f = n) fields).
Proof.
  intros Hv. unfold object_fields. rewrite Hv. eexists. split; [done|].
  intros n. rewrite fold_insert_last, lookup_empty.
  by destruct (last _).
Qed.

Lemma object_fields_last_witness :
  exists d,
    object_fields Demo.world "Foo" = Some d
    /\ d !! "a" = Some Demo.fa.
Proof.
  destruct (object_fields_last Demo.world "Foo" [Demo.fa; Demo.fb])
    as (d & Hd & Hl).
  - vm_compute. reflexivity.
  - exists d. split; [done|]. rewrite Hl. vm_compute. reflexivity.
Defined.

Lemma object_fields_lookup (w : World) (tp : Ty)
    (d : gmap string ObjectField) (n : string) :
  object_fields w tp = Some d ->
  exists fields,
    visit_fields w !! tp = Some fields
    /\ d !! n = last (filter (fun f => field_name f = n) fields).
Proof.
  unfold object_fields. destruct (visit_fields w !! tp) as [fields|]; [|done].
  intros [= <-]. exists fields. split; [done|].
  rewrite fold_insert_last, lookup_empty. by destruct (last _).
Qed.

(** X2 ([get_field], [get_alias]): the field read under a name bears this
    name, the alias read under it is the alias of that field, and an
    instance gives what its class gives. *)
Theorem getters_agree (w : World) (obj : TypeOrInstance) (n : string) :
  (forall f, get_field w obj n = inr f -> field_name f = n)
  /\ get_alias w obj n
     = match get_field w obj n with
       | inr f => inr (alias f)
       | inl e => inl e
       end
  /\ (forall o, obj = IsInstance o ->
        get_field w obj n = get_field w (IsType (type_of o)) n).
Proof.
  split; [|split].
  - unfold get_field, object_fields2, object_fields_or_raise.
    set (tp := match obj with IsType tp => tp | IsInstance o => type_of o end).
    destruct (object_fields w tp) as [d|] eqn:Hd; [|done].
    destruct (object_fields_lookup w tp d n Hd) as (fields & _ & Hl).
    unfold FieldGetter_getattribute. rewrite Hl.
    destruct (last _) as [g|] eqn:Hg; [|done]. intros f [= <-].
    by apply last_filter_name in Hg as [? _].
  - unfold get_alias, get_field. destruct (object_fields2 w obj); [done|].
    unfold AliasGetter_getattribute, FieldGetter_getattribute.
    by destruct (_ !! n).
  - by intros o ->.
Qed.

(** X3 ([get_field], error behaviour): reading a field fails in two ways
    only, with the [TypeError] of a type that has no fields, whatever the
    name, and with [AttributeError(name)] when no field of the type bears
    the name; it succeeds as soon as one does. *)
Theorem get_field_errors (w : World) (tp : Ty) (n : string) :
  match visit_fields w !! tp with
  | None =>
      get_field w (IsType tp) n
      = inl (TypeError (tp +:+ " doesn't have fields"))
  | Some fields =>
      (n ∉ field_name <$> fields ->
       get_field w (IsType tp) n = inl (AttributeError n))
      /\ (n ∈ field_name <$> fields ->
          exists f, get_field w (IsType tp) n = inr f /\ f ∈ fields)
  end.
Proof.
  unfold get_field, object_fields2, object_fields_or_raise.
  destruct (visit_fields w !! tp) as [fields|] eqn:Hv.
  - unfold object_fields. rewrite Hv.
    unfold FieldGetter_getattribute. rewrite fold_insert_last, lookup_empty.
    assert (Hsame : forall o : option ObjectField,
              match o with Some f => Some f | None => None end = o)
      by (by intros []).
    rewrite Hsame. split.
    + intros Hn. apply last_filter_None in Hn. by rewrite Hn.
    + intros Hn. destruct (last _) as [f|] eqn:Hf.
      * exists f. split; [done|]. by apply last_filter_name in Hf as [_ ?].
      * by apply last_filter_None in Hf.
  - unfold object_fields. by rewrite Hv.
Qed.

(** X4 (the field wrapper and [get_alias]): the alias under which a
    validator owned by [tp] reports the failure of its target field is the
    one [get_alias(tp)] gives for the name of that field. *)
Theorem lookup_alias_is_get_alias (w : World) (v : Validator)
    (fld : FieldOrName) (tp : Ty) (a : string) :
  owner v = Some tp ->
  lookup_alias w v fld = inr a
  <-> get_alias w (IsType tp) (get_field_name fld) = inr a.
Proof.
  intros Ho. unfold lookup_alias, get_alias, object_fields2,
    object_fields_or_raise, AliasGetter_getattribute.
  rewrite Ho. destruct (object_fields w tp) as [d|]; [|done].
  by destruct (d !! get_field_name fld).
Qed.

Lemma lookup_alias_is_get_alias_witness :
  get_alias Demo.world (IsType "Foo") "a" = inr "A".
Proof.
  apply (lookup_alias_is_get_alias Demo.world Demo.v1 (ByName "a") "Foo" "A");
    vm_compute; reflexivity.
Defined.

(** ** More on the engine *)

Section Runs.

Variables (w : World) (obj : Instance) (kwargs : gmap string Value).

(** X5 ([validate], lines 146-173): the validators called are taken from
    the given sequence in its order, each at most once; nothing else is
    ever called, whatever Discards occur. *)
Theorem calls_sublist error gens discarded it :
  sublist (calls (validate_loop w obj kwargs error gens discarded it)).*1 it.
Proof.
  revert error gens discarded.
  induction it as [|v it IH]; intros error gens discarded; simpl.
  - by destruct error.
  - destruct (passes gens discarded v); [|apply sublist_cons, IH].
    destruct (try_call_outcomes w obj kwargs v) as [->|(args & _ & ->)].
    + apply sublist_nil_l.
    + destruct (snd (Validator_validate w v obj args))
        as [|[err|fields err| | |cls msg]]; simpl;
        apply sublist_skip; first [apply IH|apply sublist_nil_l].
Qed.

(** X6 ([validate]): when every validator returns, raises a
    ValidationError or raises an exception of another class, all of them
    are called, in order, and the run ends by returning the instance or by
    raising the merged error. *)
Theorem all_called validators :
  Forall (fun v => goes_on (snd (try_call w v obj kwargs))) validators ->
  let r := validate w obj validators kwargs in
  (calls r).*1 = validators
  /\ result r = match fold_left (collect w obj) (calls r) None with
                | Some e => RaisedValidationError e
                | None => Returned obj
                end.
Proof.
  intros Hall r. subst r. unfold validate. generalize (@None ValidationError).
  induction Hall as [|v it Hv _ IH]; intros error.
  - simpl. by destruct error.
  - simpl validate_loop.
    destruct (try_call_outcomes w obj kwargs v) as [Hc|(args & _ & Hc)];
      rewrite Hc in Hv |- *; [done|].
    simpl in Hv.
    assert (Hs : forall e, collect w obj e (v, args)
                           = match surfaced
                                     (snd (Validator_validate w v obj args)) with
                             | Some x => Some (merge_errors e x)
                             | None => e
                             end) by done.
    destruct (snd (Validator_validate w v obj args))
      as [|[err|fields err| | |cls msg]]; try done;
      cbn [after_calls calls result app fmap list_fmap fst fold_left];
      rewrite Hs; simpl surfaced.
    + destruct (IH error) as [-> ->]. done.
    + destruct (IH (Some (merge_errors error err))) as [-> ->]. done.
    + destruct (IH (Some (merge_errors error (mkValidationError [msg] []))))
        as [-> ->]. done.
Qed.


(** X8 ([validate], lines 165-169): a run ends with NonTrivialDependency
    only because the last validator called raised it, and that validator
    is the one attached; it ends with AssertionError only because the
    last validator called raised it or because the assertion on the
    parameters of a validator of the sequence failed. *)
Theorem propagated_from_last_call error gens discarded it :
  let r := validate_loop w obj kwargs error gens discarded it in
  (forall v, result r = RaisedNonTrivialDependency v ->
     v ∈ it
     /\ exists cs args,
          calls r = cs ++ [(v, args)]
          /\ snd (Validator_validate w v obj args) = Raise NonTrivialDependency)
  /\ (result r = RaisedAssertionError ->
      (exists cs v args,
         calls r = cs ++ [(v, args)]
         /\ snd (Validator_validate w v obj args) = Raise AssertionError)
      \/ (exists v, v ∈ it /\ kwargs ≠ ∅ /\ ~ params v ⊆ dom kwargs)).
Proof.
  revert error gens discarded.
  induction it as [|v it IH]; intros error gens discarded r; subst r.
  - simpl. by destruct error.
  - simpl validate_loop.
    assert (Hrest : forall error' gens' discarded' cs,
      let r := after_calls cs
                 (validate_loop w obj kwargs error' gens' discarded' it) in
      (forall u, result r = RaisedNonTrivialDependency u ->
         u ∈ v :: it
         /\ exists cs' args,
              calls r = cs' ++ [(u, args)]
              /\ snd (Validator_validate w u obj args)
                 = Raise NonTrivialDependency)
      /\ (result r = RaisedAssertionError ->
          (exists cs' u args,
             calls r = cs' ++ [(u, args)]
             /\ snd (Validator_validate w u obj args) = Raise AssertionError)
          \/ (exists u, u ∈ v :: it /\ kwargs ≠ ∅ /\ ~ params u ⊆ dom kwargs))).
    { intros error' gens' discarded' cs.
      destruct (IH error' gens' discarded') as [IHn IHa]. split.
      - intros u Hu. destruct (IHn u Hu) as (Hin & cs' & args & Hcs & Hout).
        split; [by right|]. exists (cs ++ cs'), args. simpl.
        by rewrite Hcs, app_assoc.
      - intros Ha. destruct (IHa Ha) as [(cs' & u & args & Hcs & Hout)|(u & Hin & Hu)].
        + left. exists (cs ++ cs'), u, args. simpl. by rewrite Hcs, app_assoc.
        + right. exists u. split; [by right|done]. }
    destruct (passes gens discarded v); [|apply (Hrest _ _ _ [])].
    unfold try_call.
    destruct (dispatch (params v) kwargs) as [e|args] eqn:Hd.
    + destruct (dispatch_cases (params v) kwargs) as [He|[args He]];
        rewrite He in Hd; [|done].
      injection Hd as <-. simpl. split; [done|]. intros _. right.
      exists v. split; [left|].
      destruct (decide (kwargs = ∅)) as [->|Hne].
      { by rewrite dispatch_all in He by (by right). }
      split; [done|]. intros Hsub.
      destruct (decide (params v = dom kwargs)) as [Heq|Hneq].
      * by rewrite dispatch_all in He by (by left).
      * by rewrite dispatch_filtered in He.
    + destruct (snd (Validator_validate w v obj args))
        as [|[err|fields err| | |cls msg]] eqn:Hout;
        try apply (Hrest _ _ _ [(v, args)]); simpl.
      * split; [|done]. intros u [= <-]. split; [left|].
        by exists [], args.
      * split; [done|]. intros _. left. by exists [], v, args.
Qed.

End Runs.

(** X9 ([validate], lines 149-155): the keyword arguments a validator is
    called with are entries of those given to [validate]; when some were
    given, their keys are exactly the declared parameters of the
    validator. *)
Theorem dispatch_keys (ps : gset string) (kwargs args : gmap string Value) :
  dispatch ps kwargs = inr args ->
  args ⊆ kwargs /\ (kwargs ≠ ∅ -> dom args = ps).
Proof.
  intros Hd.
  destruct (decide (kwargs = ∅)) as [->|Hne].
  { rewrite dispatch_all in Hd by (by right). by injection Hd as <-. }
  destruct (decide (ps = dom kwargs)) as [Heq|Hneq].
  { rewrite dispatch_all in Hd by (by left). by injection Hd as <-. }
  destruct (decide (ps ⊆ dom kwargs)) as [Hsub|Hsub].
  - rewrite dispatch_filtered in Hd by done. injection Hd as <-.
    split; [apply map_filter_subseteq|]. intros _.
    apply dom_filter_L. intros k. split.
    + intros Hk. destruct (proj1 (elem_of_dom kwargs k) (Hsub k Hk)) as [x Hx].
      by exists x.
    + by intros (x & _ & Hk).
  - by rewrite dispatch_assertion in Hd.
Qed.

Lemma dispatch_keys_witness :
  dom ({[ "x" := VInt 1 ]} : gmap string Value) = ({[ "x" ]} : gset string).
Proof.
  apply (dispatch_keys {[ "x" ]} {[ "x" := VInt 1; "y" := VInt 2 ]}
           {[ "x" := VInt 1 ]}).
  - vm_compute. reflexivity.
  - apply insert_non_empty.
Defined.

Lemma all_called_witness :
  (calls (validate Demo.world Demo.foo [Demo.v6; Demo.v3] ∅)).*1
  = [Demo.v6; Demo.v3].
Proof.
  apply (all_called Demo.world Demo.foo ∅ [Demo.v6; Demo.v3]).
  repeat constructor.
Defined.


(** ** More on the wrapping layers *)

Lemma set_cells_same (v : Validator) :
  set_cells v (alias_cell v) (discarded_cell v) = v.
Proof. by destruct v. Qed.

Lemma set_cells_no_alias (v : Validator) :
  alias_cell v = None -> set_cells v None (discarded_cell v) = v.
Proof. intros <-. apply set_cells_same. Qed.

Section Wrappers.

Variables (w : World) (v : Validator) (obj : Instance)
          (kwargs : gmap string Value).

(** X10 ([Validator.__init__], lines 92-114): the wrappers only catch
    ValidationError.  A check that returns, or raises anything else (a
    Discard of its own, NonTrivialDependency, an assertion failure, another
    exception), has this very outcome as outcome of the validator, and
    neither cell is written. *)
Theorem wrappers_pass_through (out : Outcome) :
  validate_check v obj kwargs = out ->
  (forall err, out <> Raise (EValidationError err)) ->
  Validator_validate w v obj kwargs = (v, out).
Proof.
  intros Hc Hne. unfold Validator_validate, validate_field. rewrite Hc.
  destruct out as [|[err|fields err| | |cls msg]];
    try (by destruct (Hne err));
    destruct (field v), (truthy (discard v)); by rewrite set_cells_same.
Qed.

(** X11 (lines 96-101): when the alias cannot be looked up at the first
    failure (no owner yet, an owner without fields, no field of that
    name), the exception of the lookup replaces the ValidationError of
    the check: it is not a ValidationError, so no Discard is raised even
    with an active discard set, nothing is stored, and the engine will
    report its text as a flat message. *)
Theorem failed_alias_lookup (fld : FieldOrName) (err : ValidationError)
    (e : Exc) :
  field v = Some fld ->
  alias_cell v = None ->
  validate_check v obj kwargs = Raise (EValidationError err) ->
  lookup_alias w v fld = inl e ->
  Validator_validate w v obj kwargs = (v, Raise e)
  /\ (exists cls msg,
        e = EException cls msg
        /\ surfaced (Raise e) = Some (mkValidationError [msg] []))
  /\ (owner v = None ->
      e = EException "AttributeError"
            "'Validator' object has no attribute 'owner'").
Proof.
  intros Hf Ha Hc Hl.
  destruct (lookup_alias_error w v fld e Hl) as (cls & msg & ->).
  split; [|split].
  - unfold Validator_validate, validate_field. rewrite Hf, Hc, Ha, Hl.
    destruct (truthy (discard v)); by rewrite set_cells_no_alias.
  - by exists cls, msg.
  - intros Ho. unfold lookup_alias in Hl. rewrite Ho in Hl.
    by injection Hl as <- <-.
Qed.

(** X12 (line 103, [if self.discard:]): a validator whose discard
    collection is empty or absent has no discard wrapper; its outcome is
    that of the field layer, so a failure of its own never prunes other
    validators. *)
Theorem no_discard_wrapper :
  truthy (discard v) = false ->
  snd (Validator_validate w v obj kwargs) = snd (validate_field w v obj kwargs)
  /\ (forall fields err,
        snd (Validator_validate w v obj kwargs) = Raise (Discard fields err) ->
        validate_check v obj kwargs = Raise (Discard fields err)).
Proof.
  intros Ht.
  assert (Hs : snd (Validator_validate w v obj kwargs)
               = snd (validate_field w v obj kwargs)).
  { unfold Validator_validate.
    destruct (validate_field w v obj kwargs) as [a out]. by rewrite Ht. }
  split; [done|]. intros fields err. rewrite Hs. unfold validate_field.
  destruct (field v) as [fld|]; [|done].
  destruct (validate_check v obj kwargs) as [|[err'| | | |]]; try done.
  destruct (alias_cell v); [done|].
  destruct (lookup_alias w v fld) as [e|a] eqn:Hl; [|done].
  apply lookup_alias_error in Hl as (cls & msg & ->). done.
Qed.

(** X13 (the two [nonlocal] cells): calling a validator changes nothing
    but its two cells, and the validator left by a call behaves, in the
    same world, as the validator did before the call. *)
Theorem called_validator_behaves_the_same :
  let v' := fst (Validator_validate w v obj kwargs) in
  (func v' = func v /\ field v' = field v /\ discard v' = discard v
   /\ dependencies v' = dependencies v /\ params v' = params v
   /\ owner v' = owner v /\ _registered v' = _registered v)
  /\ forall obj' kwargs',
       snd (Validator_validate w v' obj' kwargs')
       = snd (Validator_validate w v obj' kwargs').
Proof.
  intros v'. split; [|apply cells_are_caches].
  subst v'. unfold Validator_validate.
  destruct (validate_field w v obj kwargs) as [a out].
  destruct (truthy (discard v)); [|done]. by destruct out as [|[]].
Qed.

End Wrappers.

Lemma wrappers_pass_through_witness :
  Validator_validate Demo.world Demo.v6 Demo.foo ∅
  = (Demo.v6, Raise (EException "ValueError" "boom")).
Proof.
  apply (wrappers_pass_through Demo.world Demo.v6 Demo.foo ∅).
  - reflexivity.
  - intros err H. discriminate H.
Defined.

Lemma failed_alias_lookup_witness :
  Validator_validate Demo.world Demo.unregistered Demo.foo ∅
  = (Demo.unregistered,
     Raise (EException "AttributeError"
              "'Validator' object has no attribute 'owner'")).
Proof.
  apply (failed_alias_lookup Demo.world Demo.unregistered Demo.foo ∅
           (ByName "a") (mkValidationError ["bad a"] []));
    reflexivity.
Defined.

Lemma no_discard_wrapper_witness :
  snd (Validator_validate Demo.world Demo.v3 Demo.foo ∅)
  = snd (validate_field Demo.world Demo.v3 Demo.foo ∅).
Proof.
  apply (no_discard_wrapper Demo.world Demo.v3 Demo.foo ∅). reflexivity.
Defined.

(** X14 ([Validator.__init__], lines 68-85 and 117): with a signature
    that has a first parameter and no variadic one, construction succeeds;
    the declared parameters are the names of all parameters after the
    first, and the new validator has no owner, is not registered and
    depends on nothing yet. *)
Theorem Validator_init_accepts_signature (f : Func)
    (fld : option FieldOrName) (disc : option (list FieldOrName))
    (p : SigParameter) (others : list SigParameter) :
  signature f = Some (p :: others) ->
  Forall (fun q => kind q <> VAR_KEYWORD /\ kind q <> VAR_POSITIONAL)
         (p :: others) ->
  exists v,
    Validator_init f fld disc = inr v
    /\ (forall n, n ∈ params v <-> n ∈ name <$> others)
    /\ owner v = None /\ _registered v = false /\ dependencies v = ∅.
Proof.
  intros Hsig Hall.
  assert (Hp : init_params f = inr (list_to_set (name <$> others))).
  { unfold init_params. rewrite Hsig.
    destruct (existsb _ (p :: others)) eqn:Hk.
    { apply existsb_kind, Exists_exists in Hk as (q & Hq & Hkind).
      rewrite Forall_forall in Hall. by destruct (Hall q Hq). }
    destruct (existsb (fun q => bool_decide (kind q = VAR_POSITIONAL))
                (p :: others)) eqn:Hv; [|done].
    apply existsb_kind, Exists_exists in Hv as (q & Hq & Hkind).
    rewrite Forall_forall in Hall. by destruct (Hall q Hq). }
  unfold Validator_init. rewrite Hp. eexists. split; [done|]. simpl.
  split; [|done]. intros n. apply elem_of_list_to_set.
Qed.

Lemma Validator_init_accepts_signature_witness :
  exists v,
    Validator_init (Demo.passing "check_x" ["x"]) None None = inr v
    /\ "x" ∈ params v.
Proof.
  destruct (Validator_init_accepts_signature (Demo.passing "check_x" ["x"])
              None None
              {| name := "self"; kind := POSITIONAL_OR_KEYWORD |}
              [ {| name := "x"; kind := KEYWORD_ONLY |} ])
    as (v & Hv & Hp & _).
  - reflexivity.
  - repeat constructor; discriminate.
  - exists v. split; [done|]. apply Hp. by left.
Defined.

(** ** More on registration *)

Section RegistrationInvariant.

Variables (w : World) (st st' : Store) (self : nat) (o : Ty) (out : Outcome).
Hypothesis Hreg : _register w st self o = Some (st', out).

(** What one call of [_register] does to the store. *)
Lemma _register_effect :
  exists v,
    objects st !! self = Some v
    /\ ((_registered v = true
         /\ out = Raise (EException "RuntimeError"
                           "Validator already registered")
         /\ st' = {| objects := <[self := set_owner v o]> (objects st);
                     _validators := _validators st |})
        \/ (_registered v = false
            /\ out = Return
            /\ st' = {| objects :=
                          <[self := set_registration (set_owner v o)
                                      (find_all_dependencies w o (func v)
                                       ∪ params v)]> (objects st);
                        _validators :=
                          <[o := registered_for st o ++ [self]]>
                            (_validators st) |})).
Proof.
  unfold _register in Hreg.
  destruct (objects st !! self) as [v|] eqn:Hv; [|done].
  exists v. split; [done|]. simpl in Hreg.
  destruct (_registered v) eqn:Hr.
  - left. by injection Hreg as <- <-.
  - right. injection Hreg as <- <-. repeat split.
    by rewrite insert_insert_eq.
Qed.

Lemma _register_others (j : nat) :
  j ≠ self -> objects st' !! j = objects st !! j.
Proof.
  intros Hj.
  destruct _register_effect as (v & Hv & [(_ & _ & ->)|(_ & _ & ->)]);
    simpl; by rewrite lookup_insert_ne.
Qed.

End RegistrationInvariant.

(** X15 ([_register], lines 125-131): registrations keep the registry and
    the flags in agreement.  If no list of the registry repeats an object,
    no object is in two lists and the listed objects are those whose
    [_registered] is set, the same holds after [_register], whether it
    succeeds or raises. *)
Theorem _register_keeps_registry_wf (w : World) (st st' : Store)
    (self : nat) (o : Ty) (out : Outcome) :
  _register w st self o = Some (st', out) ->
  registry_wf st -> registry_wf st'.
Proof.
  intros Hreg (Hnd & Hone & Hflag).
  destruct (_register_effect w st st' self o out Hreg) as (v & Hv & [(Hr & _ & ->)|(Hr & _ & ->)]).
  - split; [done|]. split; [done|]. intros i. rewrite (Hflag i). simpl.
    destruct (decide (i = self)) as [->|Hne].
    + rewrite lookup_insert_eq. split.
      * intros _. by exists (set_owner v o).
      * intros _. by exists v.
    + by rewrite lookup_insert_ne.
  - assert (Hnot : forall tp, self ∉ registered_for st tp).
    { intros tp Hin.
      destruct (proj1 (Hflag self) (ex_intro _ tp Hin)) as (v' & Hv' & Hr').
      rewrite Hv in Hv'. injection Hv' as <-. congruence. }
    assert (Hlist : forall tp,
              registered_for
                {| objects :=
                     <[self := set_registration (set_owner v o)
                                 (find_all_dependencies w o (func v)
                                  ∪ params v)]> (objects st);
                   _validators :=
                     <[o := registered_for st o ++ [self]]> (_validators st) |}
                tp
              = if decide (tp = o) then registered_for st o ++ [self]
                else registered_for st tp).
    { intros tp. unfold registered_for at 1. simpl.
      destruct (decide (tp = o)) as [->|Hne].
      - by rewrite lookup_insert_eq.
      - by rewrite lookup_insert_ne. }
    assert (Hin : forall tp i,
              i ∈ (if decide (tp = o) then registered_for st o ++ [self]
                   else registered_for st tp)
              <-> i ∈ registered_for st tp \/ (i = self /\ tp = o)).
    { intros tp i. destruct (decide (tp = o)) as [->|Hne].
      - rewrite elem_of_app, list_elem_of_singleton. naive_solver.
      - naive_solver. }
    split; [|split].
    + intros tp. rewrite Hlist. destruct (decide (tp = o)); [|done].
      apply NoDup_app. split; [done|]. split; [|apply NoDup_singleton].
      intros i Hi ->%list_elem_of_singleton. by apply (Hnot o).
    + intros tp tp' i. rewrite !Hlist, !Hin.
      intros [H1|[-> ->]] [H2|[? ->]]; subst;
        try done; try (by eapply Hone); by destruct (Hnot _ ltac:(eassumption)).
    + intros i. setoid_rewrite Hlist. setoid_rewrite Hin. simpl.
      destruct (decide (i = self)) as [->|Hne].
      * rewrite lookup_insert_eq. split.
        -- intros _. by eexists.
        -- intros _. exists o. by right.
      * rewrite lookup_insert_ne by done. rewrite <- (Hflag i).
        split; intros [tp Htp]; exists tp; naive_solver.
Qed.

(** X16 ([_register]): a registration touches no other object, and of the
    object itself neither the check, nor the target field, the discard
    set, the declared parameters or the cells; the owner is the one given,
    also when the call raises; after a successful call the dependencies
    are those found by the static analysis together with the declared
    parameters. *)
Theorem _register_frame (w : World) (st st' : Store) (self : nat) (o : Ty)
    (out : Outcome) :
  _register w st self o = Some (st', out) ->
  (forall j, j ≠ self -> objects st' !! j = objects st !! j)
  /\ exists v v',
       objects st !! self = Some v
       /\ objects st' !! self = Some v'
       /\ func v' = func v /\ field v' = field v /\ discard v' = discard v
       /\ params v' = params v
       /\ alias_cell v' = alias_cell v
       /\ discarded_cell v' = discarded_cell v
       /\ owner v' = Some o
       /\ _registered v' = true
       /\ (out = Return ->
           dependencies v'
           = find_all_dependencies w o (func v) ∪ params v
           /\ params v' ⊆ dependencies v')
       /\ (out <> Return -> dependencies v' = dependencies v).
Proof.
  intros Hreg.
  destruct (_register_effect w st st' self o out Hreg)
    as (v & Hv & [(Hr & -> & ->)|(Hr & -> & ->)]); simpl.
  - split; [intros j Hj; by rewrite lookup_insert_ne|].
    exists v, (set_owner v o). rewrite lookup_insert_eq.
    repeat split; try done.
  - split; [intros j Hj; by rewrite lookup_insert_ne|].
    exists v. eexists. rewrite lookup_insert_eq.
    repeat split; try done. simpl. apply union_subseteq_r.
Qed.


Lemma registry_wf_unregistered (objs : gmap nat Validator) :
  map_Forall (fun _ v => _registered v = false) objs ->
  registry_wf {| objects := objs; _validators := ∅ |}.
Proof.
  intros Hall.
  assert (Hnil : forall tp,
            registered_for {| objects := objs; _validators := ∅ |} tp = []).
  { intros tp. unfold registered_for. simpl. by rewrite lookup_empty. }
  split; [|split].
  - intros tp. rewrite Hnil. apply NoDup_nil_2.
  - intros tp tp' i. rewrite Hnil. by intros ?%elem_of_nil.
  - intros i. split.
    + intros [tp Hi]. rewrite Hnil in Hi. by apply elem_of_nil in Hi.
    + intros (v & Hv & Hr). simpl in Hv.
      specialize (Hall i v Hv). simpl in Hall. congruence.
Qed.

Lemma _register_keeps_registry_wf_witness :
  exists st',
    _register Demo.world Demo.store0 1 "Foo" = Some (st', Return)
    /\ registry_wf st'.
Proof.
  destruct (_register Demo.world Demo.store0 1 "Foo") as [[st' out]|] eqn:Hr;
    [|vm_compute in Hr; discriminate Hr].
  assert (Hout : out = Return).
  { vm_compute in Hr. by injection Hr as _ <-. }
  subst out. exists st'. split; [done|].
  apply (_register_keeps_registry_wf Demo.world Demo.store0 st' 1 "Foo"
           Return Hr).
  apply registry_wf_unregistered.
  apply (bool_decide_unpack _). vm_compute. reflexivity.
Defined.

Lemma _register_frame_witness :
  exists v',
    objects (Demo.register_all Demo.store0 [(1, "Foo")]%nat) !! 1%nat = Some v'
    /\ owner v' = Some "Foo".
Proof.
  destruct (_register Demo.world Demo.store0 1 "Foo") as [[st' out]|] eqn:Hr;
    [|vm_compute in Hr; discriminate Hr].
  destruct (_register_frame Demo.world Demo.store0 st' 1 "Foo" out Hr)
    as (_ & v & v' & _ & Hv' & _ & _ & _ & _ & _ & _ & Ho & _).
  exists v'. split; [|done].
  unfold Demo.register_all. cbn [fold_left fst snd]. by rewrite Hr.
Defined.

(** ** More on the lookup of validators *)





(** ** The decorator *)

Section Decorator.

Variables (r : Reflection) (w : World) (st : Store) (arg : Func)
          (fld : option FieldOrName) (disc : option (list FieldOrName))
          (owner_ : option Ty).

Lemma alloc_fresh (v : Validator) :
  let id := fresh (dom (objects st)) in
  alloc st v = (id, {| objects := <[id := v]> (objects st);
                       _validators := _validators st |})
  /\ objects st !! id = None.
Proof.
  split; [done|]. apply not_elem_of_dom, is_fresh.
Qed.

(** Registering the object just created cannot fail. *)
Lemma register_new_created (v : Validator) (o : Ty) :
  _registered v = false ->
  let id := fresh (dom (objects st)) in
  let st1 := {| objects := <[id := v]> (objects st);
                _validators := _validators st |} in
  exists st2,
    register_new w st1 id arg o = (st2, inr (IsFunction arg))
    /\ objects st2 !! id
       = Some (set_registration (set_owner v o)
                 (find_all_dependencies w o (func v) ∪ params v))
    /\ registered_for st2 o = registered_for st o ++ [id]
    /\ (forall tp, tp ≠ o -> registered_for st2 tp = registered_for st tp)
    /\ (forall j, j ≠ id -> objects st2 !! j = objects st !! j).
Proof.
  intros Hr id st1.
  assert (Hv : objects st1 !! id = Some v) by apply lookup_insert_eq.
  destruct (_register_first w st1 id o v Hv Hr) as (st2 & H2 & Ho & Ha & Hb).
  exists st2. unfold register_new. rewrite H2.
  split; [done|]. split; [done|]. split; [done|]. split; [done|].
  intros j Hj.
  rewrite (_register_others w st1 st2 id o Return H2 j Hj).
  by apply lookup_insert_ne.
Qed.

(** The paths through the decorator. *)
Lemma validator_func_inv (st' : Store) (res : Exc + Decorated) :
  validator_func r w st arg fld disc owner_ = (st', res) ->
  (exists e, Validator_init arg fld disc = inl e /\ st' = st /\ res = inl e)
  \/ exists v,
       Validator_init arg fld disc = inr v
       /\ let id := fresh (dom (objects st)) in
          let st1 := {| objects := <[id := v]> (objects st);
                        _validators := _validators st |} in
          (st' = st1 /\ exists e, res = inl e)
          \/ (st' = st1 /\ res = inr (IsValidator id)
              /\ is_method r arg = true /\ method_class r arg = None
              /\ owner_ = None)
          \/ (exists o, owner_resolved r arg owner_ o
                        /\ register_new w st1 id arg o = (st', res)).
Proof.
  unfold validator_func.
  destruct (Validator_init arg fld disc) as [e|v]; [intros [= <- <-]; eauto|].
  intros H. right. exists v. split; [done|]. simpl in H |- *.
  destruct (is_method r arg) eqn:Him.
  - destruct (method_class r arg) as [cls|] eqn:Hmc, owner_ as [o|] eqn:Hown.
    + right. right. exists o. split; [|done]. split; [|split]; intros; congruence.
    + right. right. exists cls. split; [|done]. split; [|split]; intros; congruence.
    + left. injection H as <- <-. eauto.
    + right. left. by injection H as <- <-.
  - destruct owner_ as [o|] eqn:Hown.
    + right. right. exists o. split; [|done]. split; [|split]; intros; congruence.
    + destruct (first_param_owner r arg) as [e|o] eqn:Hfp.
      * left. injection H as <- <-. eauto.
      * right. right. exists o. split; [|done].
        split; [|split]; intros; congruence.
Qed.

(** X18 ([validator], lines 195-212): when the decorator returns the
    function it was given, exactly one validator has been registered: a
    new object, put at the end of the list of the owner (the explicit
    owner if there is one, else the class of the method, else the type
    hint of the first parameter), with this owner, the function as check
    and its dependencies computed; every other list and every other
    object is as before. *)
Theorem validator_func_registers (st' : Store) (f : Func) :
  validator_func r w st arg fld disc owner_ = (st', inr (IsFunction f)) ->
  f = arg
  /\ exists id o v,
       objects st !! id = None
       /\ owner_resolved r arg owner_ o
       /\ registered_for st' o = registered_for st o ++ [id]
       /\ (forall tp, tp ≠ o -> registered_for st' tp = registered_for st tp)
       /\ (forall j, j ≠ id -> objects st' !! j = objects st !! j)
       /\ objects st' !! id = Some v
       /\ func v = arg /\ field v = fld /\ owner v = Some o
       /\ _registered v = true
       /\ dependencies v = find_all_dependencies w o arg ∪ params v.
Proof.
  intros H.
  destruct (validator_func_inv _ _ H)
    as [(e & _ & _ & ?)|(v & Hv & [(_ & e & ?)|[(_ & ? & _)|(o & Hres & Hreg)]])];
    try done.
  destruct (Validator_init_fresh _ _ _ _ Hv)
    as (Hfunc & Hfield & _ & Hr & _).
  destruct (register_new_created v o Hr) as (st2 & H2 & Hobj & Ha & Hb & Hc).
  rewrite H2 in Hreg. injection Hreg as <- <-. split; [done|].
  exists (fresh (dom (objects st))), o. eexists.
  split; [apply not_elem_of_dom, is_fresh|].
  split; [done|]. split; [done|]. split; [done|]. split; [done|].
  split; [exact Hobj|]. simpl. by rewrite Hfunc.
Qed.

(** X19 ([validator]): when the decorator raises, or returns the
    Validator object of a method whose class is not known yet, nothing
    has been registered: the registry and every object that existed are
    as before; the returned object is new, without owner and not
    registered. *)
Theorem validator_func_registers_nothing (st' : Store)
    (res : Exc + Decorated) :
  validator_func r w st arg fld disc owner_ = (st', res) ->
  (forall f, res <> inr (IsFunction f)) ->
  _validators st' = _validators st
  /\ (forall j, is_Some (objects st !! j) -> objects st' !! j = objects st !! j)
  /\ (forall id, res = inr (IsValidator id) ->
        objects st !! id = None
        /\ exists v, objects st' !! id = Some v
                     /\ func v = arg /\ owner v = None
                     /\ _registered v = false).
Proof.
  intros H Hnf.
  assert (Hold : forall (v : Validator) j,
            is_Some (objects st !! j) ->
            <[fresh (dom (objects st)) := v]> (objects st) !! j
            = objects st !! j).
  { intros v j Hj. apply lookup_insert_ne. intros <-.
    apply elem_of_dom in Hj. by apply is_fresh in Hj. }
  destruct (validator_func_inv _ _ H)
    as [(e & _ & -> & ->)|(v & Hv & [(-> & e & ->)|[(-> & -> & _)|(o & _ & Hreg)]])].
  - done.
  - simpl. split; [done|]. split; [by apply Hold|done].
  - simpl. split; [done|]. split; [by apply Hold|].
    intros id [= <-]. split; [apply not_elem_of_dom, is_fresh|].
    exists v. rewrite lookup_insert_eq.
    destruct (Validator_init_fresh _ _ _ _ Hv) as (? & _ & ? & ? & _).
    done.
  - destruct (Validator_init_fresh _ _ _ _ Hv) as (_ & _ & _ & Hr & _).
    destruct (register_new_created v o Hr) as (st2 & H2 & _).
    rewrite H2 in Hreg. injection Hreg as <- <-. by destruct (Hnf arg).
Qed.

(** X20 ([validator] then [__set_name__], lines 197-202 and 133-135): the
    Validator object returned for a method of a class under construction
    is registered by [__set_name__]: it goes to the end of the list of
    the class, the class attribute becomes the plain function again, and
    a second [__set_name__] on the same object raises without touching
    the attributes. *)
Theorem deferred_registration (st1 : Store) (id : nat)
    (ns : gmap (Ty * string) Decorated) (o : Ty) (n : string) :
  validator_func r w st arg fld disc owner_ = (st1, inr (IsValidator id)) ->
  exists st2 v,
    __set_name__ w st1 ns id o n
    = Some (st2, <[(o, n) := IsFunction arg]> ns, Return)
    /\ registered_for st2 o = registered_for st o ++ [id]
    /\ objects st2 !! id = Some v
    /\ func v = arg /\ owner v = Some o /\ _registered v = true
    /\ forall ns' o' n',
         exists st3,
           __set_name__ w st2 ns' id o' n'
           = Some (st3, ns',
                   Raise (EException "RuntimeError"
                            "Validator already registered")).
Proof.
  intros H.
  destruct (validator_func_inv _ _ H)
    as [(e & _ & _ & ?)|(v & Hv & [(_ & e & ?)|[(-> & [= ->] & _)|(o' & _ & Hreg)]])];
    try done.
  - destruct (Validator_init_fresh _ _ _ _ Hv) as (Hfunc & _ & _ & Hr & _).
    set (st1 := {| objects := <[fresh (dom (objects st)) := v]> (objects st);
                   _validators := _validators st |}).
    assert (Hv1 : objects st1 !! fresh (dom (objects st)) = Some v)
      by apply lookup_insert_eq.
    destruct (_register_first w st1 _ o v Hv1 Hr) as (st2 & H2 & Ho & Ha & _).
    exists st2. eexists. unfold __set_name__. rewrite H2, Ho. simpl.
    rewrite Hfunc. split; [done|]. split; [exact Ha|].
    split; [done|]. split; [done|]. split; [done|]. split; [done|].
    intros ns' o' n'. eexists.
    rewrite (_register_again w st2 _ o' _ Ho eq_refl). done.
  - destruct (Validator_init_fresh _ _ _ _ Hv) as (_ & _ & _ & Hr & _).
    destruct (register_new_created v o' Hr) as (st2 & H2 & _).
    rewrite H2 in Hreg. done.
Qed.

End Decorator.

Lemma validator_func_registers_witness :
  exists id,
    registered_for
      (fst (validator_func Demo.reflection Demo.world Demo.empty_store
              (Demo.passing "check_x" ["x"]) None None None)) "Foo"
    = registered_for Demo.empty_store "Foo" ++ [id].
Proof.
  destruct (validator_func Demo.reflection Demo.world Demo.empty_store
              (Demo.passing "check_x" ["x"]) None None None)
    as [st' res] eqn:H.
  assert (Hres : res = inr (IsFunction (Demo.passing "check_x" ["x"]))).
  { pose proof (f_equal snd H) as Hs. vm_compute in Hs. by rewrite <- Hs. }
  subst res.
  destruct (validator_func_registers _ _ _ _ _ _ _ _ _ H)
    as (_ & id & o & v & _ & (_ & _ & Ho) & Ha & _).
  assert (Hfoo : o = "Foo").
  { specialize (Ho eq_refl eq_refl). vm_compute in Ho. by injection Ho as <-. }
  subst o. exists id. exact Ha.
Defined.

Lemma validator_func_registers_nothing_witness :
  _validators
    (fst (validator_func Demo.reflection Demo.world Demo.store
            {| fn_name := "no_parameter"; signature := Some [];
               isgeneratorfunction := false; call := fun _ _ => Returns |}
            None None None))
  = _validators Demo.store.
Proof.
  destruct (validator_func Demo.reflection Demo.world Demo.store _
              None None None) as [st' res] eqn:H.
  apply (validator_func_registers_nothing _ _ _ _ _ _ _ _ _ H).
  intros f Hf. pose proof (f_equal snd H) as Hs. vm_compute in Hs.
  rewrite Hf in Hs. discriminate Hs.
Defined.

Lemma deferred_registration_witness :
  exists st1 id st2,
    validator_func Demo.reflection Demo.world Demo.store
      (Demo.passing "method" []) None None None
    = (st1, inr (IsValidator id))
    /\ registered_for st2 "Foo" = registered_for Demo.store "Foo" ++ [id].
Proof.
  destruct (validator_func Demo.reflection Demo.world Demo.store
              (Demo.passing "method" []) None None None)
    as [st1 res] eqn:H.
  assert (Hres : res = inr (IsValidator 10)).
  { pose proof (f_equal snd H) as Hs. vm_compute in Hs. by rewrite <- Hs. }
  subst res.
  destruct (deferred_registration _ _ _ _ _ _ _ st1 10 ∅ "Foo" "method" H)
    as (st2 & v & _ & Ha & _).
  exists st1, 10%nat, st2. split; [reflexivity|exact Ha].
Defined.


